(** * dnsdb2: the SAF stream decoder, the query composer and the mock
    client

    A shallow embedding of [dnsdb2/saf.py], [dnsdb2/client.py] and
    [dnsdb2/mock.py].

    Python values are carried as follows.
    - [str] is the list of its code points ([list N]); [lit] turns a
      literal of the development into such a list.
    - [bytes] is [list byte].
    - the objects built by [json.loads] are the inductive [pyjson]; a
      [dict] is a [gmap] from keys to values.
    - a generator is the finite trace of its [yield]s followed by the way
      its body is left, and a generator object is a frame over that trace.

    Library code on which the modules rely but which is not part of the
    package ([json.loads], the Unicode tables behind [nameprep], the HTTP
    session) is a [Variable] of the section that uses it; such a call
    returns a value or raises an exception, and the code that makes the
    call decides what becomes of the exception. *)

From Stdlib Require Import ZArith NArith List Lia.
From Stdlib Require Import Strings.String Strings.Ascii Strings.Byte.
From Stdlib Require Import Floats.SpecFloat.
From stdpp Require Import base option list gmap.

Set Warnings "-register-all".
Open Scope N_scope.

Abbreviation pystr := (list N).
Abbreviation pybytes := (list byte).

(** A literal of the source, as a [str]. *)
Definition lit (s : string) : pystr :=
  map N_of_ascii (list_ascii_of_string s).

(** ** Objects decoded from JSON *)

Inductive pyjson :=
| PNone
| PBool (b : bool)
| PInt (z : Z)
| PFloat (f : spec_float)
| PStr (s : pystr)
| PList (l : list pyjson)
| PDict (d : gmap pystr pyjson).

(** Truth value of an object, as tested by [if obj:] and [not cond]. *)
Definition truthy (v : pyjson) : bool :=
  match v with
  | PNone => false
  | PBool b => b
  | PInt z => negb (z =? 0)%Z
  | PFloat (S754_zero _) => false
  | PFloat _ => true
  | PStr s => negb (bool_decide (length s = 0%nat))
  | PList l => negb (bool_decide (length l = 0%nat))
  | PDict d => negb (bool_decide (size d = 0%nat))
  end.

(** [v == s] for a [str] [s]: only a [str] with the same code points is
    equal to it. *)
Definition py_eq_str (v : pyjson) (s : pystr) : bool :=
  match v with
  | PStr t => bool_decide (t = s)
  | _ => false
  end.

(** [v.get(key)]: [None] stands for the [AttributeError] of an object that
    is no [dict]; a missing key gives Python's [None]. *)
Definition py_get (v : pyjson) (key : pystr) : option pyjson :=
  match v with
  | PDict d => Some (default PNone (d !! key))
  | _ => None
  end.

(** An f-string with one interpolated value. *)
Inductive fstring := FString (literal : pystr) (value : pyjson).

(** Its text when the value is a [str], which formats as itself. *)
Definition fstring_text (f : fstring) : option pystr :=
  match f with
  | FString l (PStr s) => Some (l ++ s)
  | _ => None
  end.

(** ** Exceptions *)

(** The exceptions of the interpreter and of the libraries that reach this
    code. [AttributeError] comes from calling a method an object does not
    have and [UnicodeError] from the codecs. [json.loads] raises
    [JSONDecodeError] on a text that is not JSON, [RecursionError] on one
    nested deeper than the recursion limit and [ValueError] on an integer
    of more digits than the interpreter converts. [HTTPError],
    [ConnectionError] and [ChunkedEncodingError] are subclasses of
    [requests.RequestException]; the last is raised when a transfer breaks
    while the body is read. *)
Inductive library_exception :=
| AttributeError
| UnicodeError
| JSONDecodeError
| RecursionError
| ValueError
| HTTPError (status : Z)
| ConnectionError
| ChunkedEncodingError.

(** [dnsdb2/exceptions.py]: the subclasses of [DnsdbException], beside the
    exceptions that come from elsewhere. *)
Inductive exception :=
| AccessDenied (text : pystr)
| OffsetError (text : pystr)
| QuotaExceeded (text : pystr)
| ConcurrencyExceeded (text : pystr)
| QueryError (cause : exception)
| QueryFailed (msg : pyjson)
| QueryLimited (msg : pyjson)
| QueryTruncated
| ProtocolError (text : fstring)
| Library (e : library_exception).

Coercion Library : library_exception >-> exception.

(** An argument of an exception: an object, or a formatted text. *)
Inductive arg :=
| AValue (v : pyjson)
| AText (f : fstring).

(** [e.args], the arguments the exception was raised with. *)
Definition args (e : exception) : list arg :=
  match e with
  | AccessDenied t | OffsetError t | QuotaExceeded t
  | ConcurrencyExceeded t => [AValue (PStr t)]
  | QueryFailed m | QueryLimited m => [AValue m]
  | ProtocolError f => [AText f]
  | QueryError _ | QueryTruncated | Library _ => []
  end.

(** The subclasses of [DnsdbException]. *)
Definition is_DnsdbException (e : exception) : bool :=
  match e with
  | AccessDenied _ | OffsetError _ | QuotaExceeded _ | ConcurrencyExceeded _
  | QueryError _ | QueryFailed _ | QueryLimited _ | QueryTruncated
  | ProtocolError _ => true
  | Library _ => false
  end.

(** [except requests.RequestException] *)
Definition is_RequestException (e : exception) : bool :=
  match e with
  | Library (HTTPError _ | ConnectionError | ChunkedEncodingError) => true
  | _ => false
  end.

Inductive result (A : Type) :=
| Ok (a : A)
| Raises (e : exception).
Arguments Ok {A} a.
Arguments Raises {A} e.

(** What a call into a library comes back with: a value, or an exception
    of the library, which is never one of [dnsdb2]. *)
Inductive library_result (A : Type) :=
| Gives (a : A)
| Fails (e : library_exception).
Arguments Gives {A} a.
Arguments Fails {A} e.

(** ** The response handed over by the transport *)

Record response := Response {
  status_code : Z;
  text : pystr;
  (** the lines [iter_lines(decode_unicode=True)] delivers, as text *)
  iter_lines : list pystr;
  (** what the iterator does after them: [None] when the body has been
      read to its end, otherwise the exception of a transfer that breaks *)
  iter_error : option library_exception
}.

(** * dnsdb2/saf.py *)

Module Saf.

Definition COND_BEGIN := lit "begin".
Definition COND_ONGOING := lit "ongoing".
Definition COND_SUCCEEDED := lit "succeeded".
Definition COND_LIMITED := lit "limited".
Definition COND_FAILED := lit "failed".

(** How the generator body is left. *)
Inductive exit :=
| Return
| Raise (e : exception).

(** The body of a generator: its yields in order, then its exit together
    with the lines of the response that were never read. *)
Inductive trace :=
| Yield (obj : pyjson) (k : trace)
| Stop (x : exit) (unread : list pystr).

(** What one pass through the loop body does once its [yield], if any, is
    over. *)
Inductive flow :=
| Continue
| Leave (x : exit).

Section Decoder.
(** [json.loads] *)
Variable json_loads : pystr -> library_result pyjson.
Variable ignore_limited : bool.
(** How [res.iter_lines] ends once its lines are delivered: [None] when it
    is exhausted, otherwise the exception it raises. *)
Variable broken : option library_exception.

(** Lines 53 to 62. *)
Definition after_payload (cond msg : pyjson) : flow :=
  if py_eq_str cond COND_ONGOING || negb (truthy cond) then Continue
  else if py_eq_str cond COND_LIMITED then
    if ignore_limited then Leave Return
    else Leave (Raise (QueryLimited msg))
  else if py_eq_str cond COND_FAILED then Leave (Raise (QueryFailed msg))
  else Leave (Raise (ProtocolError (FString (lit "invalid cond: ") cond))).

(** The [for] loop of [handle_saf], lines 32 to 64, inside the [try].
    An exception of the iterator leaves the loop as it is, and so does an
    exception of [json.loads] other than the one the [except] clause
    names. *)
Fixpoint for_lines (lines : list pystr) : trace :=
  match lines with
  | [] =>
      match broken with
      | None => Stop (Raise QueryTruncated) []
      | Some e => Stop (Raise e) []
      end
  | line :: rest =>
      if negb (truthy (PStr line)) then for_lines rest
      else
        match json_loads line with
        | Fails JSONDecodeError =>
            Stop (Raise (ProtocolError
              (FString (lit "could not decode json: ") (PStr line)))) rest
        | Fails e => Stop (Raise e) rest
        | Gives saf_msg =>
            match py_get saf_msg (lit "cond"),
                  py_get saf_msg (lit "obj"),
                  py_get saf_msg (lit "msg") with
            | Some cond, Some obj, Some msg =>
                if py_eq_str cond COND_BEGIN then for_lines rest
                else if py_eq_str cond COND_SUCCEEDED then Stop Return rest
                else
                  let k := match after_payload cond msg with
                           | Continue => for_lines rest
                           | Leave x => Stop x rest
                           end in
                  if truthy obj then Yield obj k else k
            | _, _, _ => Stop (Raise AttributeError) rest
            end
        end
  end.
End Decoder.

(** *** The generator object

    [closed] counts the calls of [res.close()], which only the [finally]
    clause makes. *)

Inductive frame :=
| Created (body : trace)
| Suspended (k : trace)
| Finished.

Record generator := Generator {
  gi_frame : frame;
  closed : nat
}.

(** Calling [handle_saf] runs nothing: it builds the generator. *)
Definition handle_saf (json_loads : pystr -> library_result pyjson)
    (res : response) (ignore_limited : bool) : generator :=
  Generator
    (Created (for_lines json_loads ignore_limited (iter_error res)
                (iter_lines res))) 0.

(** What [next(g)] gives the caller. *)
Inductive answer :=
| Yielded (obj : pyjson)
| StopIteration
| Raised (e : exception).

(** Run the body up to its next [yield], or out of the [try], whose
    [finally] closes the response. *)
Definition resume (t : trace) (c : nat) : answer * generator :=
  match t with
  | Yield obj k => (Yielded obj, Generator (Suspended k) c)
  | Stop Return _ => (StopIteration, Generator Finished (S c))
  | Stop (Raise e) _ => (Raised e, Generator Finished (S c))
  end.

Definition next (g : generator) : answer * generator :=
  match gi_frame g with
  | Created t | Suspended t => resume t (closed g)
  | Finished => (StopIteration, g)
  end.

(** [g.close()], also what dropping the last reference to [g] does:
    [GeneratorExit] is raised at the [yield] where the body is suspended,
    so the [finally] clause runs; a generator that was never started is
    marked finished without running any of its body. *)
Definition close (g : generator) : generator :=
  match gi_frame g with
  | Created _ => Generator Finished (closed g)
  | Suspended _ => Generator Finished (S (closed g))
  | Finished => g
  end.

(** A caller, as the calls it makes on the generator. *)
Inductive call :=
| CallNext
| CallClose.

(** The answers to the [next] calls, and the generator left behind. *)
Fixpoint interact (g : generator) (cs : list call)
    : list answer * generator :=
  match cs with
  | [] => ([], g)
  | CallNext :: cs' =>
      let (a, g') := next g in
      let (answers, g'') := interact g' cs' in
      (a :: answers, g'')
  | CallClose :: cs' => interact (close g) cs'
  end.

(** [list(g)], or a [for] loop run to its end: the objects received and
    the way the iteration stops. *)
Fixpoint drain (t : trace) : list pyjson * exit :=
  match t with
  | Yield obj k => let (objs, x) := drain k in (obj :: objs, x)
  | Stop x _ => ([], x)
  end.

(** The lines left unread when the body is left. *)
Fixpoint unread_lines (t : trace) : list pystr :=
  match t with
  | Yield _ k => unread_lines k
  | Stop _ rest => rest
  end.

(** [ys] are yielded, then the body goes on as [t]. *)
Definition yield_all (ys : list pyjson) (t : trace) : trace :=
  foldr Yield t ys.

(** The state of a generator whose body has been entered: the response
    is closed exactly when the generator is finished. *)
Definition once_entered (g : generator) : Prop :=
  match gi_frame g with
  | Created _ => False
  | Suspended _ => closed g = 0%nat
  | Finished => closed g = 1%nat
  end.

(** The answer that ends an iteration. *)
Definition last_answer (x : exit) : answer :=
  match x with
  | Return => StopIteration
  | Raise e => Raised e
  end.

(** *** The lines of a stream, in the words of the protocol *)

Section Lines.
Variable json_loads : pystr -> library_result pyjson.

(** A line that bears no terminal condition and breaks no rule of the
    framing: a blank line, or an object whose condition is [begin],
    [ongoing], or is missing or false. *)
Definition nonterminal (line : pystr) : bool :=
  match line with
  | [] => true
  | _ =>
      match json_loads line with
      | Gives (PDict d) =>
          let cond := default PNone (d !! lit "cond") in
          py_eq_str cond COND_BEGIN || py_eq_str cond COND_ONGOING
          || negb (truthy cond)
      | _ => false
      end
  end.

(** The payload a line delivers: the [obj] of an object whose condition
    is neither [begin] nor [succeeded], when that [obj] is true. *)
Definition payload (line : pystr) : option pyjson :=
  match line with
  | [] => None
  | _ =>
      match json_loads line with
      | Gives (PDict d) =>
          let cond := default PNone (d !! lit "cond") in
          let obj := default PNone (d !! lit "obj") in
          if py_eq_str cond COND_BEGIN || py_eq_str cond COND_SUCCEEDED
          then None
          else if truthy obj then Some obj else None
      | _ => None
      end
  end.
End Lines.

(** *** Ways of leaving the loop *)

(** The exit of a trace, changed by [f]. *)
Fixpoint map_exit (f : exit -> exit) (t : trace) : trace :=
  match t with
  | Yield obj k => Yield obj (map_exit f k)
  | Stop x unread => Stop (f x) unread
  end.

(** [QueryLimited] turned into a plain return. *)
Definition swallow_limited (x : exit) : exit :=
  match x with
  | Raise (QueryLimited _) => Return
  | _ => x
  end.

(** The exits the decoder makes itself: its return, the exceptions it
    raises and the [AttributeError] of its field extraction. *)
Definition decoder_exit (x : exit) : bool :=
  match x with
  | Return => true
  | Raise (QueryLimited _) | Raise (QueryFailed _) | Raise QueryTruncated
  | Raise (ProtocolError _) | Raise (Library AttributeError) => true
  | Raise _ => false
  end.

(** How a line on which the loop does not go on ends it. *)
Inductive stops (json_loads : pystr -> library_result pyjson)
    (ignore_limited : bool) (line : pystr) : exit -> Prop :=
| stops_undecodable :
    json_loads line = Fails JSONDecodeError ->
    stops json_loads ignore_limited line
      (Raise (ProtocolError
                (FString (lit "could not decode json: ") (PStr line))))
| stops_uncaught e :
    json_loads line = Fails e -> e <> JSONDecodeError ->
    stops json_loads ignore_limited line (Raise e)
| stops_no_object v :
    json_loads line = Gives v -> (forall d, v <> PDict d) ->
    stops json_loads ignore_limited line (Raise AttributeError)
| stops_succeeded d :
    json_loads line = Gives (PDict d) ->
    d !! lit "cond" = Some (PStr COND_SUCCEEDED) ->
    stops json_loads ignore_limited line Return
| stops_limited d :
    json_loads line = Gives (PDict d) ->
    d !! lit "cond" = Some (PStr COND_LIMITED) ->
    stops json_loads ignore_limited line
      (if ignore_limited then Return
       else Raise (QueryLimited (default PNone (d !! lit "msg"))))
| stops_failed d :
    json_loads line = Gives (PDict d) ->
    d !! lit "cond" = Some (PStr COND_FAILED) ->
    stops json_loads ignore_limited line
      (Raise (QueryFailed (default PNone (d !! lit "msg"))))
| stops_invalid d cond :
    json_loads line = Gives (PDict d) ->
    d !! lit "cond" = Some cond -> truthy cond = true ->
    cond ∉ map PStr [COND_BEGIN; COND_ONGOING; COND_SUCCEEDED; COND_LIMITED;
                     COND_FAILED] ->
    stops json_loads ignore_limited line
      (Raise (ProtocolError (FString (lit "invalid cond: ") cond))).

(** How the loop is left when no line ends it. *)
Definition end_of_lines (broken : option library_exception) : exit :=
  match broken with
  | None => Raise QueryTruncated
  | Some e => Raise e
  end.

(** The number of [next] calls among the calls of a caller. *)
Definition count_next (cs : list call) : nat :=
  length (List.filter (fun c => match c with CallNext => true
                                | CallClose => false end) cs).

End Saf.

(** * dnsdb2/client.py *)

Module Client.

Definition ACCEPT_CONTENT_TYPE := lit "application/x-ndjson".
Definition DEFAULT_DNSDB_SERVER := lit "https://api.dnsdb.info".
Definition API_PREFIX := lit "dnsdb/v2".
Definition DEFAULT_SWCLIENT := lit "dnsdb2python".

Definition METHOD_LOOKUP := lit "lookup".
Definition METHOD_SUMMARIZE := lit "summarize".
Definition RRTYPE_ANY := lit "ANY".

(** The exception classes, by HTTP status. *)
Definition _STATUS_CODE_MAP : gmap Z (pystr -> exception) :=
  {[ 401%Z := AccessDenied;
     403%Z := AccessDenied;
     416%Z := OffsetError;
     429%Z := QuotaExceeded;
     503%Z := ConcurrencyExceeded ]}.

(** ** Text and bytes (the codecs and [urllib.parse] of the library) *)

Definition byte_of_N (n : N) : byte := default x00 (Byte.of_N n).

(** [str.encode('ascii')]; [None] is [UnicodeEncodeError]. *)
Definition encode_ascii (s : pystr) : option pybytes :=
  if forallb (fun c => c <? 128) s then Some (map byte_of_N s) else None.

(** [bytes.decode('ascii')] of bytes known to be ASCII. *)
Definition decode_ascii (bs : pybytes) : pystr := map Byte.to_N bs.

(** Bytes that are all ASCII. *)
Definition ascii_bytes (bs : pybytes) : Prop :=
  Forall (fun b => Byte.to_N b < 128) bs.

(** [str.encode('utf-8')] on one code point; surrogates are refused. *)
Definition utf8_encode_char (c : N) : option pybytes :=
  if c <? 0x80 then Some [byte_of_N c]
  else if c <? 0x800 then
    Some [byte_of_N (0xC0 + c / 64); byte_of_N (0x80 + c mod 64)]
  else if c <? 0x10000 then
    if (0xD800 <=? c) && (c <? 0xE000) then None
    else Some [byte_of_N (0xE0 + c / 4096);
               byte_of_N (0x80 + (c / 64) mod 64);
               byte_of_N (0x80 + c mod 64)]
  else if c <? 0x110000 then
    Some [byte_of_N (0xF0 + c / 262144);
          byte_of_N (0x80 + (c / 4096) mod 64);
          byte_of_N (0x80 + (c / 64) mod 64);
          byte_of_N (0x80 + c mod 64)]
  else None.

Fixpoint utf8_encode (s : pystr) : option pybytes :=
  match s with
  | [] => Some []
  | c :: s' =>
      match utf8_encode_char c, utf8_encode s' with
      | Some b, Some bs => Some (b ++ bs)
      | _, _ => None
      end
  end.

Definition is_continuation (n : N) : bool := (0x80 <=? n) && (n <? 0xC0).

(** [bytes.decode('utf-8')] with strict error handling; [None] is
    [UnicodeDecodeError]. *)
Fixpoint utf8_decode (bs : pybytes) : option pystr :=
  match bs with
  | [] => Some []
  | b0 :: t =>
      let n0 := Byte.to_N b0 in
      if n0 <? 0x80 then cons n0 <$> utf8_decode t
      else if n0 <? 0xC2 then None
      else if n0 <? 0xE0 then
        match t with
        | b1 :: t1 =>
            let n1 := Byte.to_N b1 in
            if is_continuation n1
            then cons ((n0 - 0xC0) * 64 + (n1 - 0x80)) <$> utf8_decode t1
            else None
        | _ => None
        end
      else if n0 <? 0xF0 then
        match t with
        | b1 :: b2 :: t2 =>
            let n1 := Byte.to_N b1 in
            let n2 := Byte.to_N b2 in
            let c := (n0 - 0xE0) * 4096 + (n1 - 0x80) * 64 + (n2 - 0x80) in
            if is_continuation n1 && is_continuation n2 && (0x800 <=? c)
               && negb ((0xD800 <=? c) && (c <? 0xE000))
            then cons c <$> utf8_decode t2
            else None
        | _ => None
        end
      else if n0 <? 0xF5 then
        match t with
        | b1 :: b2 :: b3 :: t3 =>
            let n1 := Byte.to_N b1 in
            let n2 := Byte.to_N b2 in
            let n3 := Byte.to_N b3 in
            let c := (n0 - 0xF0) * 262144 + (n1 - 0x80) * 4096
                     + (n2 - 0x80) * 64 + (n3 - 0x80) in
            if is_continuation n1 && is_continuation n2 && is_continuation n3
               && (0x10000 <=? c) && (c <? 0x110000)
            then cons c <$> utf8_decode t3
            else None
        | _ => None
        end
      else None
  end.

(** [_ALWAYS_SAFE]: letters, digits and [_.-~]. *)
Definition always_safe (n : N) : bool :=
  ((65 <=? n) && (n <=? 90)) || ((97 <=? n) && (n <=? 122))
  || ((48 <=? n) && (n <=? 57))
  || (n =? 95) || (n =? 46) || (n =? 45) || (n =? 126).

(** An upper-case hexadecimal digit. *)
Definition hex_digit (d : N) : N := if d <? 10 then 48 + d else 55 + d.

(** The quoter of [quote_from_bytes] with an empty [safe]:
    [chr(b)] for a safe byte, ['%{:02X}'.format(b)] otherwise. *)
Definition quoter (b : byte) : pystr :=
  let n := Byte.to_N b in
  if always_safe n then [n] else [37; hex_digit (n / 16); hex_digit (n mod 16)].

(** [urllib.parse.quote_from_bytes(bs, safe='')] *)
Definition quote_from_bytes (bs : pybytes) : pystr := concat (map quoter bs).

(** What [_quote] is called on: a [str], or the [bytes] of a codec. *)
Inductive text_arg :=
| Str (s : pystr)
| Bytes (b : pybytes).

(** [urllib.parse.quote(string, safe='')]: a [str] is first encoded as
    UTF-8, strictly. *)
Definition quote (string : text_arg) : result pystr :=
  match string with
  | Str s =>
      match utf8_encode s with
      | Some bs => Ok (quote_from_bytes bs)
      | None => Raises UnicodeError
      end
  | Bytes bs => Ok (quote_from_bytes bs)
  end.

Definition _quote (path : text_arg) : result pystr := quote path.

(** The value of a hexadecimal digit of either case. *)
Definition hex_value (c : N) : option N :=
  if (48 <=? c) && (c <=? 57) then Some (c - 48)
  else if (65 <=? c) && (c <=? 70) then Some (c - 55)
  else if (97 <=? c) && (c <=? 102) then Some (c - 87)
  else None.

(** [urllib.parse.unquote_to_bytes]: every [%XX] with two hexadecimal
    digits becomes the byte [XX]; any other character stands for its UTF-8
    bytes. *)
Fixpoint unquote_to_bytes (s : pystr) : pybytes :=
  match s with
  | [] => []
  | c :: t =>
      let plain := default [] (utf8_encode_char c) ++ unquote_to_bytes t in
      if c =? 37 then
        match t with
        | h1 :: h2 :: rest =>
            match hex_value h1, hex_value h2 with
            | Some a, Some b => byte_of_N (16 * a + b) :: unquote_to_bytes rest
            | _, _ => plain
            end
        | _ => plain
        end
      else plain
  end.

(** Percent-decoding of a path segment, [urllib.parse.unquote]: the
    unquoted bytes read as UTF-8. The library replaces malformed UTF-8 by
    U+FFFD where this definition gives [None]. *)
Definition unquote (s : pystr) : option pystr :=
  utf8_decode (unquote_to_bytes s).

(** ** encodings/punycode.py *)

Fixpoint insert_sorted (c : N) (l : list N) : list N :=
  match l with
  | [] => [c]
  | x :: l' =>
      if c <? x then c :: l
      else if c =? x then l
      else x :: insert_sorted c l'
  end.

(** The basic code points in order, and the sorted set of the others. *)
Definition segregate (str : pystr) : pybytes * list N :=
  (map byte_of_N (List.filter (fun c => c <? 128) str),
   foldr insert_sorted [] (List.filter (fun c => negb (c <? 128)) str)).

Definition selective_len (str : pystr) (max : N) : Z :=
  Z.of_nat (length (List.filter (fun c => c <? max) str)).

(** [selective_find] from the characters that follow position [pos]. *)
Fixpoint selective_find_from (rest : pystr) (char : N) (index pos : Z)
    : Z * Z :=
  match rest with
  | [] => (-1, -1)%Z
  | c :: rest' =>
      let pos := (pos + 1)%Z in
      if c =? char then ((index + 1)%Z, pos)
      else selective_find_from rest' char
             (if c <? char then (index + 1)%Z else index) pos
  end.

Definition selective_find (str : pystr) (char : N) (index pos : Z) : Z * Z :=
  selective_find_from (drop (Z.to_nat (pos + 1)) str) char index pos.

(** The inner [while] of [insertion_unsort]; each turn moves [pos]
    forward, so [length str + 1] turns are enough. *)
Fixpoint unsort_while (fuel : nat) (str : pystr) (c : N)
    (index pos oldindex delta : Z) (result : list Z) : list Z * Z :=
  match fuel with
  | O => (result, oldindex)
  | S fuel' =>
      let (index, pos) := selective_find str c index pos in
      if (index =? -1)%Z then (result, oldindex)
      else
        let delta := (delta + (index - oldindex))%Z in
        unsort_while fuel' str c index pos index 0%Z
          (result ++ [(delta - 1)%Z])
  end.

Definition insertion_unsort (str : pystr) (extended : list N) : list Z :=
  fst (fst (foldl
    (fun st c =>
       let '(result, oldchar, oldindex) := st in
       let char := Z.of_N c in
       let curlen := selective_len str c in
       let delta := ((curlen + 1) * (char - oldchar))%Z in
       let (result, oldindex) :=
         unsort_while (S (length str)) str c (-1)%Z (-1)%Z oldindex delta
           result in
       (result, char, oldindex))
    ([], 0x80%Z, (-1)%Z) extended)).

Definition T (j bias : Z) : Z :=
  let res := (36 * (j + 1) - bias)%Z in
  if (res <? 1)%Z then 1%Z else if (26 <? res)%Z then 26%Z else res.

Definition digits : pybytes :=
  map byte_of_N (lit "abcdefghijklmnopqrstuvwxyz0123456789").

Definition digit (i : Z) : byte := nth (Z.to_nat i) digits x00.

(** The loop of [generate_generalized_integer]; [N] shrinks by a factor of
    ten at least at each turn. *)
Fixpoint generalized_integer_while (fuel : nat) (n bias j : Z) : pybytes :=
  match fuel with
  | O => []
  | S fuel' =>
      let t := T j bias in
      if (n <? t)%Z then [digit n]
      else
        digit (t + ((n - t) mod (36 - t)))%Z
        :: generalized_integer_while fuel' ((n - t) / (36 - t))%Z bias
             (j + 1)%Z
  end.

Definition generate_generalized_integer (n bias : Z) : pybytes :=
  generalized_integer_while (S (N.size_nat (Z.to_N n))) n bias 0%Z.

Fixpoint adapt_while (fuel : nat) (delta divisions : Z) : Z * Z :=
  match fuel with
  | O => (delta, divisions)
  | S fuel' =>
      if (455 <? delta)%Z then adapt_while fuel' (delta / 35)%Z
                                 (divisions + 36)%Z
      else (delta, divisions)
  end.

Definition adapt (delta : Z) (first : bool) (numchars : Z) : Z :=
  let delta := if first then (delta / 700)%Z else (delta / 2)%Z in
  let delta := (delta + delta / numchars)%Z in
  let (delta, divisions) :=
    adapt_while (N.size_nat (Z.to_N delta)) delta 0%Z in
  (divisions + (36 * delta / (delta + 38)))%Z.

Fixpoint generate_integers_for (baselen : Z) (points : Z) (bias : Z)
    (deltas : list Z) : pybytes :=
  match deltas with
  | [] => []
  | delta :: deltas' =>
      generate_generalized_integer delta bias
      ++ generate_integers_for baselen (points + 1)%Z
           (adapt delta (points =? 0)%Z (baselen + points + 1)%Z) deltas'
  end.

Definition generate_integers (baselen : Z) (deltas : list Z) : pybytes :=
  generate_integers_for baselen 0%Z 72%Z deltas.

Definition punycode_encode (text : pystr) : pybytes :=
  let (base, extended) := segregate text in
  let deltas := insertion_unsort text extended in
  let extended := generate_integers (Z.of_nat (length base)) deltas in
  match base with
  | [] => extended
  | _ => base ++ [byte_of_N 45] ++ extended
  end.

(** ** encodings/idna.py *)

#[global] Instance result_bind : MBind result :=
  fun A B f r => match r with Ok a => f a | Raises e => Raises e end.

Definition ace_prefix : pybytes := map byte_of_N (lit "xn--").
Definition sace_prefix : pystr := lit "xn--".

(** The separators of [dots]. *)
Definition is_dot (c : N) : bool :=
  (c =? 0x2E) || (c =? 0x3002) || (c =? 0xFF0E) || (c =? 0xFF61).

(** [split]: the pieces between separators, empty ones included. *)
Fixpoint split_on {A} (sep : A -> bool) (l : list A) : list (list A) :=
  match l with
  | [] => [[]]
  | x :: l' =>
      if sep x then [] :: split_on sep l'
      else
        match split_on sep l' with
        | h :: t => (x :: h) :: t
        | [] => [[x]]
        end
  end.

(** [0 < len(label) < 64] *)
Definition label_size_ok (n : nat) : bool :=
  ((0 <? n) && (n <? 64))%nat.

Section Idna.
(** [nameprep], which rests on the tables of [stringprep] and of
    [unicodedata]; it raises [UnicodeError] on a prohibited label. *)
Variable nameprep : pystr -> result pystr.

Definition ToASCII (label : pystr) : result pybytes :=
  match encode_ascii label with
  | Some label =>
      if label_size_ok (length label) then Ok label else Raises UnicodeError
  | None =>
      label ← nameprep label;
      match encode_ascii label with
      | Some label =>
          if label_size_ok (length label) then Ok label
          else Raises UnicodeError
      | None =>
          if bool_decide (take (length sace_prefix) label = sace_prefix)
          then Raises UnicodeError
          else
            let label := ace_prefix ++ punycode_encode label in
            if label_size_ok (length label) then Ok label
            else Raises UnicodeError
      end
  end.

(** The loop that joins the encoded labels with a full stop. *)
Fixpoint join_labels (labels : list pystr) (joined : pybytes)
    : result pybytes :=
  match labels with
  | [] => Ok joined
  | label :: labels' =>
      let joined := match joined with
                    | [] => joined
                    | _ => joined ++ [byte_of_N 46]
                    end in
      label ← ToASCII label;
      join_labels labels' (joined ++ label)
  end.

(** [Codec.encode], what [str.encode('idna')] calls. *)
Definition encode_idna (input : pystr) : result pybytes :=
  match input with
  | [] => Ok []
  | _ =>
      match encode_ascii input with
      | Some encoded =>
          let labels := split_on (fun b => Byte.to_N b =? 46) encoded in
          if forallb (fun label => label_size_ok (length label))
               (removelast labels)
          then
            if (64 <=? length (List.last labels []))%nat
            then Raises UnicodeError
            else Ok encoded
          else Raises UnicodeError
      | None =>
          let labels := split_on is_dot input in
          let (labels, trailing_dot) :=
            match List.last labels [0] with
            | [] => (removelast labels, [byte_of_N 46])
            | _ => (labels, [])
            end in
          joined ← join_labels labels [];
          Ok (joined ++ trailing_dot)
      end
  end.
End Idna.

(** ** The query methods *)

(** [if rrtype:] on an optional [str]. *)
Definition given (o : option pystr) : bool :=
  match o with
  | Some (_ :: _) => true
  | _ => false
  end.

(** [ip.replace('/', ',')] *)
Definition replace_slash (ip : pystr) : pystr :=
  map (fun c => if c =? 47 then 44 else c) ip.

Section Generators.
Variable nameprep : pystr -> result pystr.
Context {P R : Type}.
(** The method [self._saf_query]. *)
Variable self_saf_query : pystr -> bool -> P -> result R.

Definition _gen_rrset (prefix : pystr) (owner_name : pystr)
    (rrtype bailiwick : option pystr) (ignore_limited : bool)
    (params : P) : result R :=
  owner_name ← encode_idna nameprep owner_name;
  quoted ← _quote (Bytes owner_name);
  let path := prefix ++ lit "/rrset/name/" ++ quoted in
  let path := if given rrtype then path ++ lit "/" ++ default [] rrtype
              else path in
  path ← (if given bailiwick then
            bailiwick ← encode_idna nameprep (default [] bailiwick);
            let path := if negb (given rrtype)
                        then path ++ lit "/" ++ RRTYPE_ANY
                        else path in
            quoted ← _quote (Bytes bailiwick);
            Ok (path ++ lit "/" ++ quoted)
          else Ok path);
  self_saf_query path ignore_limited params.

Definition _gen_rdata_name (prefix : pystr) (name : pystr)
    (rrtype : option pystr) (ignore_limited : bool) (params : P)
    : result R :=
  name ← encode_idna nameprep name;
  quoted ← _quote (Bytes name);
  let path := prefix ++ lit "/rdata/name/" ++ quoted in
  let path := if given rrtype then path ++ lit "/" ++ default [] rrtype
              else path in
  self_saf_query path ignore_limited params.

Definition _gen_rdata_ip (prefix : pystr) (ip : pystr)
    (ignore_limited : bool) (params : P) : result R :=
  let path := prefix ++ lit "/rdata/ip/" ++ replace_slash ip in
  self_saf_query path ignore_limited params.

Definition _gen_rdata_raw (prefix : pystr) (raw_rdata : pystr)
    (rrtype : option pystr) (ignore_limited : bool) (params : P)
    : result R :=
  let path := prefix ++ lit "/rdata/raw/" ++ raw_rdata in
  let path := if given rrtype then path ++ lit "/" ++ default [] rrtype
              else path in
  self_saf_query path ignore_limited params.

Definition _gen_flex (method key : pystr) (value : pystr)
    (rrtype : option pystr) (ignore_limited : bool) (params : P)
    : result R :=
  quoted ← _quote (Str value);
  let path := method ++ lit "/" ++ key ++ lit "/" ++ quoted in
  let path := if given rrtype then path ++ lit "/" ++ default [] rrtype
              else path in
  self_saf_query path ignore_limited params.
End Generators.

(** ** The client and its dispatcher *)

Record client := {
  apikey : pystr;
  server : pystr;
  swclient : pystr;
  version : pystr;
  proxies : option (gmap pystr pystr);
  insecure : bool
}.

(** The arguments of [self._session.get]. *)
Record request := {
  req_url : pystr;
  req_headers : gmap pystr pystr;
  req_params : gmap pystr pyjson;
  req_proxies : option (gmap pystr pystr);
  req_verify : bool;
  req_stream : bool
}.

Definition _base_params (self : client) : gmap pystr pyjson :=
  {[ lit "swclient" := PStr (swclient self);
     lit "version" := PStr (version self) ]}.

Definition _headers (self : client) : gmap pystr pystr :=
  {[ lit "Accept" := ACCEPT_CONTENT_TYPE;
     lit "X-Api-Key" := apikey self ]}.

(** [Response.raise_for_status] of [requests]: [HTTPError] for the client
    and server error statuses. *)
Definition raise_for_status (res : response) : result unit :=
  if ((400 <=? status_code res) && (status_code res <? 600))%Z
  then Raises (HTTPError (status_code res))
  else Ok tt.

Definition _raise_error (res : response) : result unit :=
  match _STATUS_CODE_MAP !! status_code res with
  | Some e => Raises (e (text res))
  | None => raise_for_status res
  end.

Section Dispatcher.
Variable json_loads : pystr -> library_result pyjson.
(** [self._session.get], which returns a response or raises. *)
Variable session_get : request -> result response.

Definition _saf_query (self : client) (path : pystr)
    (ignore_limited : bool) (params : gmap pystr pyjson)
    : result Saf.generator :=
  let url := server self ++ lit "/" ++ API_PREFIX ++ lit "/" ++ path in
  let query_params := params ∪ _base_params self in
  let tried :=
    res ← session_get
            {| req_url := url;
               req_headers := _headers self;
               req_params := query_params;
               req_proxies := proxies self;
               req_verify := negb (insecure self);
               req_stream := true |};
    _ ← _raise_error res;
    Ok res in
  match tried with
  | Raises e =>
      if is_RequestException e then Raises (QueryError e) else Raises e
  | Ok res => Ok (Saf.handle_saf json_loads res ignore_limited)
  end.
End Dispatcher.

Section Methods.
Variable nameprep : pystr -> result pystr.
Variable json_loads : pystr -> library_result pyjson.
Variable session_get : request -> result response.

Let query := _saf_query json_loads session_get.

Definition lookup_rrset self := _gen_rrset nameprep (query self) METHOD_LOOKUP.
Definition summarize_rrset self :=
  _gen_rrset nameprep (query self) METHOD_SUMMARIZE.
Definition lookup_rdata_name self :=
  _gen_rdata_name nameprep (query self) METHOD_LOOKUP.
Definition summarize_rdata_name self :=
  _gen_rdata_name nameprep (query self) METHOD_SUMMARIZE.
Definition lookup_rdata_raw self := _gen_rdata_raw (query self) METHOD_LOOKUP.
Definition summarize_rdata_raw self :=
  _gen_rdata_raw (query self) METHOD_SUMMARIZE.
Definition flex_rrnames_regex self :=
  _gen_flex (query self) (lit "regex") (lit "rrnames").
Definition flex_rrnames_glob self :=
  _gen_flex (query self) (lit "glob") (lit "rrnames").
Definition flex_rdata_regex self :=
  _gen_flex (query self) (lit "regex") (lit "rdata").
Definition flex_rdata_glob self :=
  _gen_flex (query self) (lit "glob") (lit "rdata").
End Methods.

(** ** The queries answered by one JSON document *)

Section JsonQueries.
Variable session_get : request -> result response.
(** [res.json()], which decodes the body or raises. *)
Variable response_json : response -> result pyjson.

(** [_json_query]. The second component counts the calls of
    [res.close()]: the [with] statement makes one on leaving its block,
    however the block is left. *)
Definition _json_query (self : client) (path : pystr)
    (params : gmap pystr pyjson) : result pyjson * nat :=
  let url := server self ++ lit "/" ++ API_PREFIX ++ lit "/" ++ path in
  let query_params := params ∪ _base_params self in
  match session_get
          {| req_url := url;
             req_headers := _headers self;
             req_params := query_params;
             req_proxies := proxies self;
             req_verify := negb (insecure self);
             req_stream := false |} with
  | Raises e =>
      (if is_RequestException e then Raises (QueryError e) else Raises e,
       0%nat)
  | Ok res =>
      (match (_ ← _raise_error res; response_json res) with
       | Raises e =>
           if is_RequestException e then Raises (QueryError e) else Raises e
       | Ok document => Ok document
       end,
       1%nat)
  end.

Definition ping (self : client) : result bool * nat :=
  let path := lit "ping" in
  let (document, closes) := _json_query self path ∅ in
  (document ← document;
   match py_get document (lit "ping") with
   | Some value => Ok (py_eq_str value (lit "ok"))
   | None => Raises AttributeError
   end,
   closes).

Definition rate_limit (self : client) : result pyjson * nat :=
  let path := lit "rate_limit" in
  _json_query self path ∅.
End JsonQueries.

(** The request of a query: the arguments [_saf_query] and [_json_query]
    call [self._session.get] with. *)
Definition query_request (stream : bool) (self : client) (path : pystr)
    (params : gmap pystr pyjson) : request :=
  {| req_url := server self ++ lit "/" ++ API_PREFIX ++ lit "/" ++ path;
     req_headers := _headers self;
     req_params := params ∪ _base_params self;
     req_proxies := proxies self;
     req_verify := negb (insecure self);
     req_stream := stream |}.

(** ** Names and characters *)

(** [sep.join(pieces)] *)
Fixpoint join_with {A} (sep : A) (pieces : list (list A)) : list A :=
  match pieces with
  | [] => []
  | [piece] => piece
  | piece :: pieces' => piece ++ sep :: join_with sep pieces'
  end.

(** A label of an ASCII name: one to 63 ASCII characters, none a full
    stop. *)
Definition ascii_label (label : pystr) : Prop :=
  (0 < length label < 64)%nat
  /\ Forall (fun c => c < 128 /\ c <> 46) label.

(** A label of a host name: an ASCII label of letters, digits and [_-~]. *)
Definition hostname_label (label : pystr) : Prop :=
  (0 < length label < 64)%nat
  /\ Forall (fun c => always_safe c = true /\ c <> 46) label.

(** The characters of a quoted text: the safe ones, [%] and the upper-case
    hexadecimal digits. *)
Definition quoted_char (c : N) : bool :=
  always_safe c || (c =? 37)
  || ((48 <=? c) && (c <=? 57)) || ((65 <=? c) && (c <=? 70)).

(** The code points UTF-8 encodes: all but the surrogates, up to
    U+10FFFF. *)
Definition scalar_value (c : N) : bool :=
  (c <? 0xD800) || ((0xE000 <=? c) && (c <? 0x110000)).

End Client.

(** * dnsdb2/mock.py *)

Module Mock.

(** What a call of the mock raises: the exception the mock was given or
    found among its results, or the error of taking a result where there
    is none. *)
Inductive raised (E : Type) :=
| Given (e : E)
| IndexError
| TypeError.
Arguments Given {E} e.
Arguments IndexError {E}.
Arguments TypeError {E}.

Inductive outcome (V E : Type) :=
| Returns (v : V)
| Raising (e : raised E).
Arguments Returns {V E} v.
Arguments Raising {V E} e.

Section Mock.
(** The arguments, the results and the exceptions a test works with. *)
Context {A V E : Type}.

(** A result of [search_results]; [Failure] is an instance of
    [Exception]. *)
Inductive item :=
| Result (v : V)
| Failure (e : E).

(** An entry of [calls]; the keys [res] and [e] are set once the call is
    over. *)
Record call := Call {
  f : pystr;
  args : list A;
  kwargs : gmap pystr A;
  res : option V;
  e : option (raised E)
}.

(** The mock [Client]. [search_results] is [None] unless the test gives
    a sequence. *)
Record client := Client {
  calls : list call;
  exception : option E;
  ping_result : V;
  rate_limit_result : V;
  search_results : option (list item)
}.

Definition set_calls (self : client) (cs : list call) : client :=
  Client cs (exception self) (ping_result self) (rate_limit_result self)
    (search_results self).

Definition set_search_results (self : client) (rs : option (list item))
    : client :=
  Client (calls self) (exception self) (ping_result self)
    (rate_limit_result self) rs.

(** A function with its [__name__]; it is called on [self], the other
    positional arguments and the keyword arguments. *)
Record func := Func {
  name : pystr;
  run : client -> list A -> gmap pystr A -> outcome V E * client
}.

Definition _raises (fn : func) : func :=
  Func (name fn) (fun self args kwargs =>
    match exception self with
    | Some e => (Raising (Given e), self)
    | None => run fn self args kwargs
    end).

(** The entry is appended before the call; it is the same object that is
    completed after it, at the place it was appended to. *)
Definition _records (fn : func) : func :=
  Func (name fn) (fun self args kwargs =>
    let call := Call (name fn) args kwargs None None in
    let place := length (calls self) in
    let self := set_calls self (calls self ++ [call]) in
    match run fn self args kwargs with
    | (Returns v, self) =>
        (Returns v,
         set_calls self
           (alter (fun c => Call (f c) (Mock.args c) (Mock.kwargs c) (Some v)
                              (e c)) place (calls self)))
    | (Raising exn, self) =>
        (Raising exn,
         set_calls self
           (alter (fun c => Call (f c) (Mock.args c) (Mock.kwargs c) (res c)
                              (Some exn)) place (calls self)))
    end).

(** The decorated function is never called: the first of the results is
    taken off, raised if it is an exception and returned otherwise. *)
Definition _searches (fn : func) : func :=
  Func (name fn) (fun self args kwargs =>
    match search_results self with
    | None => (Raising TypeError, self)
    | Some [] => (Raising IndexError, self)
    | Some (first :: rest) =>
        let self := set_search_results self (Some rest) in
        match first with
        | Failure exn => (Raising (Given exn), self)
        | Result v => (Returns v, self)
        end
    end).

Definition ping : func :=
  _records (_raises
    (Func (lit "ping") (fun self _ _ => (Returns (ping_result self), self)))).

Definition rate_limit : func :=
  _records (_raises
    (Func (lit "rate_limit")
       (fun self _ _ => (Returns (rate_limit_result self), self)))).

(** A search method; its body, [pass], is never run. [none] stands for
    the [None] it would return. *)
Definition search (method : string) (none : V) : func :=
  _records (_raises (_searches
    (Func (lit method) (fun self _ _ => (Returns none, self))))).

(** The names of the twelve search methods. *)
Definition search_methods : list string :=
  [ "lookup_rrset"; "summarize_rrset"; "lookup_rdata_name";
    "summarize_rdata_name"; "lookup_rdata_ip"; "summarize_rdata_ip";
    "lookup_rdata_raw"; "summarize_rdata_raw"; "flex_rrnames_regex";
    "flex_rrnames_glob"; "flex_rdata_regex"; "flex_rdata_glob" ]%string.

(** The outcome of taking [first] off the results. *)
Definition served (first : item) : outcome V E :=
  match first with
  | Result v => Returns v
  | Failure exn => Raising (Given exn)
  end.

(** The entry a finished call leaves in [calls]. *)
Definition entry (method : pystr) (args : list A) (kwargs : gmap pystr A)
    (o : outcome V E) : call :=
  match o with
  | Returns v => Call method args kwargs (Some v) None
  | Raising exn => Call method args kwargs None (Some exn)
  end.

(** A test that calls search methods one after the other: the outcomes,
    and the mock at the end. *)
Fixpoint run_searches (none : V) (self : client)
    (script : list (string * list A * gmap pystr A))
    : list (outcome V E) * client :=
  match script with
  | [] => ([], self)
  | (method, args, kwargs) :: script' =>
      let (o, self) := run (search method none) self args kwargs in
      let (os, self) := run_searches none self script' in
      (o :: os, self)
  end.
End Mock.

Arguments item : clear implicits.
Arguments call : clear implicits.
Arguments client : clear implicits.
Arguments func : clear implicits.

End Mock.

(** * Examples: the streams of [test/test_saf.py] *)

Module Examples.
Local Open Scope string_scope.

(** JSON text, written with an apostrophe where the text has a double
    quote. *)
Definition json_text (s : string) : pystr :=
  map (fun c => if (c =? 39)%N then 34%N else c) (lit s).

Definition count_obj (count time_first : Z) : pyjson :=
  PDict {[ lit "count" := PInt count; lit "time_first" := PInt time_first ]}.

Definition limited_dict : gmap pystr pyjson :=
  {[ lit "cond" := PStr (lit "limited");
     lit "msg" := PStr (lit "Query limit reached");
     lit "obj" := count_obj 33 19126549 ]}.

Definition invalid_dict : gmap pystr pyjson :=
  {[ lit "cond" := PStr (lit "invalid");
     lit "obj" := count_obj 33 19126549 ]}.

(** The lines of the examples. *)
Definition line_begin : pystr := json_text "{'cond': 'begin'}".
Definition line_obj : pystr :=
  json_text "{'obj': {'count': 10392, 'time_first': 138126549}}".
Definition line_ongoing : pystr :=
  json_text
    "{'cond': 'ongoing', 'obj': {'count': 10392, 'time_first': 138126549}}".
Definition line_succeeded : pystr := json_text "{'cond': 'succeeded'}".
Definition line_limited : pystr :=
  json_text ("{'cond': 'limited', 'msg': 'Query limit reached', "
             ++ "'obj':{'count':33,'time_first':19126549}}").
Definition line_failed : pystr :=
  json_text ("{'cond': 'failed', "
             ++ "'msg': 'Processing timeout; results may be incomplete', "
             ++ "'obj':{'count':33,'time_first':19126549}}").
Definition line_invalid : pystr := json_text "{'cond': 'invalid'}".
Definition line_invalid_obj : pystr :=
  json_text "{'cond': 'invalid', 'obj': {'count': 33, 'time_first': 19126549}}".
Definition line_broken : pystr := json_text "{'cond': ".
Definition line_array : pystr := json_text "[1, 2]".
(** A hundred thousand opening brackets. *)
Definition line_nested : pystr := repeat 91%N (N.to_nat 100000).

(** Lines whose [obj] is present and empty. *)
Definition failed_empty_line : pystr :=
  json_text "{'cond': 'failed', 'msg': 'Processing timeout', 'obj': {}}".
Definition limited_empty_line : pystr :=
  json_text "{'cond': 'limited', 'msg': 'Query limit reached', 'obj': {}}".
Definition ongoing_empty_line : pystr :=
  json_text "{'cond': 'ongoing', 'obj': {}}".
Definition invalid_empty_line : pystr :=
  json_text "{'cond': 'invalid', 'obj': {}}".

(** The documents of the examples with the objects [json.loads] returns
    for them. *)
Definition documents : list (pystr * pyjson) :=
  [ (line_begin, PDict {[ lit "cond" := PStr (lit "begin") ]});
    (line_obj, PDict {[ lit "obj" := count_obj 10392 138126549 ]});
    (line_ongoing,
     PDict {[ lit "cond" := PStr (lit "ongoing");
              lit "obj" := count_obj 10392 138126549 ]});
    (line_succeeded, PDict {[ lit "cond" := PStr (lit "succeeded") ]});
    (line_limited, PDict limited_dict);
    (line_failed,
     PDict {[ lit "cond" := PStr (lit "failed");
              lit "msg" :=
                PStr (lit "Processing timeout; results may be incomplete");
              lit "obj" := count_obj 33 19126549 ]});
    (line_invalid, PDict {[ lit "cond" := PStr (lit "invalid") ]});
    (line_invalid_obj, PDict invalid_dict);
    (failed_empty_line,
     PDict {[ lit "cond" := PStr (lit "failed");
              lit "msg" := PStr (lit "Processing timeout");
              lit "obj" := PDict ∅ ]});
    (limited_empty_line,
     PDict {[ lit "cond" := PStr (lit "limited");
              lit "msg" := PStr (lit "Query limit reached");
              lit "obj" := PDict ∅ ]});
    (ongoing_empty_line,
     PDict {[ lit "cond" := PStr (lit "ongoing"); lit "obj" := PDict ∅ ]});
    (invalid_empty_line,
     PDict {[ lit "cond" := PStr (lit "invalid"); lit "obj" := PDict ∅ ]});
    (line_array, PList [PInt 1; PInt 2]) ].

(** [json.loads] on the lines of the examples: the documents above are
    decoded, [line_nested] exceeds the recursion limit, and any other text,
    such as [line_broken], is no JSON. *)
Definition sample_loads (line : pystr) : library_result pyjson :=
  match List.find (fun p => bool_decide (fst p = line)) documents with
  | Some p => Gives (snd p)
  | None =>
      if bool_decide (line = line_nested) then Fails RecursionError
      else Fails JSONDecodeError
  end.

(** The field [key] of the object decoded from [line]. *)
Definition field (line : pystr) (key : string) : option pyjson :=
  match sample_loads line with
  | Gives v => py_get v (lit key)
  | Fails _ => None
  end.

(** A successful response with the given lines, read to its end; the
    blank line at the end is the one the tests get from splitting their
    text at line ends. *)
Definition stream (lines : list pystr) : response :=
  Response 200 [] (lines ++ [[]]) None.

Definition test_simple : response :=
  stream [line_begin; line_obj; line_succeeded].

Definition test_limited : response :=
  stream [line_begin; line_obj; line_limited].

Definition test_failure : response :=
  stream [line_begin; line_failed].

Definition test_truncated : response :=
  stream [line_begin; line_ongoing].

(** A stream with a line that is valid JSON but no object. *)
Definition test_non_object : response :=
  stream [line_begin; line_array; line_succeeded].

(** A transfer that breaks after two lines. *)
Definition test_interrupted : response :=
  Response 200 [] [line_begin; line_obj] (Some ChunkedEncodingError).

(** [nameprep] on the labels of the examples, which are made of ASCII
    characters, of the Latin-1 letters U+00E0 to U+00FF and of U+0192,
    U+2202 and U+222B: the capital letters A to Z are folded to lower case
    and nothing else changes. No other label occurs in the examples. *)
Definition sample_nameprep (label : pystr) : result pystr :=
  if forallb (fun c => (c <? 128) || ((0xE0 <=? c) && (c <=? 0xFF))
                       || (c =? 0x192) || (c =? 0x2202) || (c =? 0x222B))%N
       label
  then Ok (map (fun c => if (65 <=? c) && (c <=? 90) then c + 32 else c)%N
             label)
  else Raises UnicodeError.

(** The names of [test_rrset_idna], by code point. *)
Definition owner_idna : pystr := [0xE5; 0x222B; 0xE7]%N.
Definition bailiwick_idna : pystr := [0x2202; 0xE9; 0x192]%N.

(** A method [_saf_query] that hands back the path it is called with, in
    the manner of the one of [TestGenerators]. *)
Definition record_path (path : pystr) (ignore_limited : bool)
    (params : gmap pystr pyjson) : result pystr := Ok path.

(** The client of [TestDnsdbClient]. *)
Definition unit_test_client : Client.client :=
  {| Client.apikey := lit "abcdef-ghijkl-mnopqrstuvwxyz";
     Client.server := lit "https://unit.test";
     Client.swclient := lit "abc-client";
     Client.version := lit "v1.2.3.4";
     Client.proxies := None;
     Client.insecure := false |}.

(** A session whose every request is answered by [res]. *)
Definition answering (res : response) (req : Client.request)
    : result response := Ok res.

End Examples.

(** * Properties of the decoder *)

Import Saf.

Ltac eval_goal :=
  vm_compute;
  first [ reflexivity | discriminate | intro; discriminate | lia ].

Section DecoderFacts.
Variable json_loads : pystr -> library_result pyjson.
Variable ignore_limited : bool.
Variable broken : option library_exception.

Let for_lines := for_lines json_loads ignore_limited broken.
Let nonterminal := nonterminal json_loads.
Let payload := payload json_loads.

Lemma drain_yield_all ys t :
  drain (yield_all ys t) = (ys ++ fst (drain t), snd (drain t)).
Proof.
  induction ys as [|y ys IH].
  - simpl. by destruct (drain t).
  - change (yield_all (y :: ys) t) with (Yield y (yield_all ys t)).
    cbn [drain]. by rewrite IH.
Qed.

Lemma unread_yield_all ys t :
  unread_lines (yield_all ys t) = unread_lines t.
Proof. induction ys; simpl; auto. Qed.

Lemma py_eq_str_true v s : py_eq_str v s = true <-> v = PStr s.
Proof.
  destruct v; simpl; try (split; [discriminate | intros; discriminate]).
  rewrite bool_decide_eq_true. split; congruence.
Qed.

(** A non-terminal line adds its payload, if any, and the loop goes on. *)
Lemma for_lines_nonterminal line rest :
  nonterminal line = true ->
  for_lines (line :: rest) =
  yield_all (option_list (payload line)) (for_lines rest).
Proof.
  unfold nonterminal, payload, Saf.nonterminal, Saf.payload, for_lines.
  destruct line as [|c line]; [done|].
  simpl. destruct (json_loads (c :: line)) as [[]|]; try done.
  simpl. set (cond := default PNone (d !! lit "cond")).
  set (obj := default PNone (d !! lit "obj")).
  unfold after_payload.
  destruct (py_eq_str cond COND_BEGIN) eqn:Hb; [done|].
  destruct (py_eq_str cond COND_SUCCEEDED) eqn:Hs.
  { apply py_eq_str_true in Hs. rewrite Hs. vm_compute. discriminate. }
  simpl. intros ->. by destruct (truthy obj).
Qed.

Lemma for_lines_through pre rest :
  forallb nonterminal pre = true ->
  for_lines (pre ++ rest) = yield_all (omap payload pre) (for_lines rest).
Proof.
  induction pre as [|line pre IH]; [done|].
  simpl. intros [Hl Hpre]%andb_prop.
  change (for_lines (line :: pre ++ rest) =
          yield_all (omap payload (line :: pre)) (for_lines rest)).
  rewrite for_lines_nonterminal by done. rewrite IH by done.
  simpl. by destruct (payload line).
Qed.

(** The loop on a line that is an object. *)
Lemma for_lines_dict line rest d :
  line <> [] -> json_loads line = Gives (PDict d) ->
  for_lines (line :: rest) =
  let cond := default PNone (d !! lit "cond") in
  let obj := default PNone (d !! lit "obj") in
  let msg := default PNone (d !! lit "msg") in
  if py_eq_str cond COND_BEGIN then for_lines rest
  else if py_eq_str cond COND_SUCCEEDED then Stop Return rest
  else
    let k := match after_payload ignore_limited cond msg with
             | Continue => for_lines rest
             | Leave x => Stop x rest
             end in
    if truthy obj then Yield obj k else k.
Proof.
  intros Hne Hl. destruct line as [|c line]; [done|].
  unfold for_lines. simpl. by rewrite Hl.
Qed.
End DecoderFacts.

Lemma cond_is (d : gmap pystr pyjson) (s : pystr) :
  py_eq_str (default PNone (d !! lit "cond")) s = true <->
  d !! lit "cond" = Some (PStr s).
Proof.
  destruct (d !! lit "cond") as [v|]; simpl.
  - destruct v; simpl; try (split; [discriminate | intros; congruence]).
    rewrite bool_decide_eq_true. split; congruence.
  - split; discriminate.
Qed.

Lemma cond_is_not (d : gmap pystr pyjson) (s : pystr) :
  d !! lit "cond" <> Some (PStr s) ->
  py_eq_str (default PNone (d !! lit "cond")) s = false.
Proof.
  intros H. apply not_true_is_false. by rewrite cond_is.
Qed.

(** C1, amended. A decoded line whose condition is [begin] adds nothing and
    the loop goes on; on [succeeded] the body returns, the rest of the
    stream unread. Otherwise an [obj] that is present and true is yielded
    as the next object, on [limited] and [failed] lines before the error is
    raised; an [obj] that is present but false (an empty object, [null],
    [0]) is not yielded. *)
Theorem emission_rule json_loads il broken line rest d :
  line <> [] -> json_loads line = Gives (PDict d) ->
  let cond := d !! lit "cond" in
  let msg := default PNone (d !! lit "msg") in
  let t := for_lines json_loads il broken (line :: rest) in
  (cond = Some (PStr COND_BEGIN) ->
   t = for_lines json_loads il broken rest) /\
  (cond = Some (PStr COND_SUCCEEDED) ->
   t = Stop Return rest /\ drain t = ([], Return)) /\
  (cond <> Some (PStr COND_BEGIN) -> cond <> Some (PStr COND_SUCCEEDED) ->
   forall obj, d !! lit "obj" = Some obj ->
     let k := match after_payload il (default PNone cond) msg with
              | Continue => for_lines json_loads il broken rest
              | Leave x => Stop x rest
              end in
     (truthy obj = true -> t = Yield obj k) /\
     (truthy obj = false -> t = k) /\
     (cond = Some (PStr COND_LIMITED) -> il = false ->
      k = Stop (Raise (QueryLimited msg)) rest) /\
     (cond = Some (PStr COND_FAILED) ->
      k = Stop (Raise (QueryFailed msg)) rest)).
Proof.
  intros Hne Hl cond msg t. subst cond msg t.
  rewrite (for_lines_dict json_loads il broken line rest d Hne Hl). cbn zeta.
  split; [|split].
  - intros Hc. apply cond_is in Hc. by rewrite Hc.
  - intros Hc. rewrite Hc. by vm_compute.
  - intros Hb Hs obj Hobj. rewrite !cond_is_not by done. rewrite Hobj.
    simpl. repeat split.
    + by intros ->.
    + by intros ->.
    + intros Hc ->. by rewrite Hc.
    + intros Hc. by rewrite Hc.
Qed.

Lemma emission_rule_witness :
  let line := Examples.line_limited in
  line <> [] /\
  Examples.sample_loads line = Gives (PDict Examples.limited_dict) /\
  for_lines Examples.sample_loads false None [line] =
  Yield (Examples.count_obj 33 19126549)
    (Stop (Raise (QueryLimited (PStr (lit "Query limit reached")))) []).
Proof.
  intros line.
  assert (Hne : line <> []) by eval_goal.
  assert (Hl : Examples.sample_loads line = Gives (PDict Examples.limited_dict))
    by eval_goal.
  split; [exact Hne|]. split; [exact Hl|].
  destruct (emission_rule Examples.sample_loads false None line [] _ Hne Hl)
    as (_ & _ & H).
  destruct (H ltac:(eval_goal) ltac:(eval_goal)
              (Examples.count_obj 33 19126549) ltac:(eval_goal))
    as (Hy & _ & Hk & _).
  rewrite (Hy ltac:(eval_goal)).
  rewrite (Hk ltac:(eval_goal) eq_refl). reflexivity.
Defined.

(** C1 as stated fails: the [obj] of this [failed] line is present, an
    empty object, and nothing is yielded before [QueryFailed]. *)
Lemma emission_rule_counterexample :
  Examples.field Examples.failed_empty_line "cond" = Some (PStr COND_FAILED) /\
  Examples.field Examples.failed_empty_line "obj" = Some (PDict ∅) /\
  drain (for_lines Examples.sample_loads false None
           [Examples.failed_empty_line]) =
  ([], Raise (QueryFailed (PStr (lit "Processing timeout")))).
Proof. repeat split; eval_goal. Qed.

(** C2, amended. When the decoder gets to a [limited] line whose [obj] is
    present and true, it yields that object after the payloads of the
    lines before, then raises [QueryLimited] with the [msg] of the line, or
    returns if [ignore_limited] is set. *)
Theorem limited_line json_loads il broken pre line post d obj :
  forallb (nonterminal json_loads) pre = true ->
  line <> [] -> json_loads line = Gives (PDict d) ->
  d !! lit "cond" = Some (PStr COND_LIMITED) ->
  d !! lit "obj" = Some obj -> truthy obj = true ->
  drain (for_lines json_loads il broken (pre ++ line :: post)) =
  (omap (payload json_loads) pre ++ [obj],
   if il then Return
   else Raise (QueryLimited (default PNone (d !! lit "msg")))).
Proof.
  intros Hpre Hne Hl Hc Ho Ht.
  rewrite for_lines_through by done. rewrite drain_yield_all.
  rewrite (for_lines_dict json_loads il broken line post d Hne Hl). cbn zeta.
  rewrite Hc, Ho. simpl. rewrite Ht.
  change (py_eq_str (PStr COND_LIMITED) COND_BEGIN) with false.
  change (py_eq_str (PStr COND_LIMITED) COND_SUCCEEDED) with false.
  cbv iota.
  replace (after_payload il (PStr COND_LIMITED)
             (default PNone (d !! lit "msg")))
    with (Leave (if il then Return
                 else Raise (QueryLimited (default PNone (d !! lit "msg")))))
    by (by destruct il).
  reflexivity.
Qed.

Lemma limited_line_witness :
  drain (for_lines Examples.sample_loads false None
           (iter_lines Examples.test_limited)) =
  ([Examples.count_obj 10392 138126549; Examples.count_obj 33 19126549],
   Raise (QueryLimited (PStr (lit "Query limit reached")))).
Proof.
  exact (limited_line Examples.sample_loads false None
    [Examples.line_begin; Examples.line_obj] Examples.line_limited [[]]
    Examples.limited_dict
    (Examples.count_obj 33 19126549)
    ltac:(eval_goal) ltac:(eval_goal) ltac:(eval_goal) ltac:(eval_goal)
    ltac:(eval_goal) ltac:(eval_goal)).
Defined.

(** C2 as stated fails: this [limited] line carries an [obj], the empty
    object, which is not yielded before [QueryLimited] is raised. *)
Lemma limited_line_counterexample :
  Examples.field Examples.limited_empty_line "cond" =
  Some (PStr COND_LIMITED) /\
  Examples.field Examples.limited_empty_line "obj" = Some (PDict ∅) /\
  drain (for_lines Examples.sample_loads false None
           [Examples.limited_empty_line]) =
  ([], Raise (QueryLimited (PStr (lit "Query limit reached")))).
Proof. repeat split; eval_goal. Qed.

(** C3, amended. When the stream is read to its end, every line of it
    being blank or an object whose condition is [begin], [ongoing], missing
    or false, the decoder yields the payloads of the lines, those [obj]
    that are true, leaves no line unread and raises [QueryTruncated]. *)
Theorem truncated_stream json_loads il lines :
  forallb (nonterminal json_loads) lines = true ->
  drain (for_lines json_loads il None lines) =
  (omap (payload json_loads) lines, Raise QueryTruncated) /\
  unread_lines (for_lines json_loads il None lines) = [].
Proof.
  intros H. rewrite <- (app_nil_r lines) at 1 3.
  rewrite for_lines_through by done.
  rewrite drain_yield_all, unread_yield_all. simpl.
  by rewrite app_nil_r.
Qed.

Lemma truncated_stream_witness :
  drain (for_lines Examples.sample_loads false None
           (iter_lines Examples.test_truncated)) =
  ([Examples.count_obj 10392 138126549], Raise QueryTruncated).
Proof.
  exact (proj1 (truncated_stream Examples.sample_loads false
                  (iter_lines Examples.test_truncated) ltac:(eval_goal))).
Defined.

(** C3 as stated fails: the payload of the [ongoing] line that precedes the
    end of this stream is the empty object, and it is not yielded. *)
Lemma truncated_stream_counterexample :
  Examples.field Examples.ongoing_empty_line "cond" =
  Some (PStr COND_ONGOING) /\
  Examples.field Examples.ongoing_empty_line "obj" = Some (PDict ∅) /\
  drain (for_lines Examples.sample_loads false None
           [Examples.ongoing_empty_line]) =
  ([], Raise QueryTruncated).
Proof. repeat split; eval_goal. Qed.

(** C4, amended. When the decoder gets to a line on which [json.loads]
    raises [JSONDecodeError] it raises [ProtocolError], and the lines after
    it stay unread. Another exception of [json.loads], such as the
    [RecursionError] of a text nested too deeply, is not caught: it ends
    the sequence as it is, and it is no [ProtocolError] nor any other
    [DnsdbException]. When the decoder gets to an object whose condition is
    a non-empty string other than the five conditions it raises
    [ProtocolError] with the text [invalid cond: ] followed by that string,
    after yielding the [obj] of the line if that [obj] is true. *)
Theorem protocol_errors json_loads il broken pre line post :
  forallb (nonterminal json_loads) pre = true -> line <> [] ->
  let t := for_lines json_loads il broken (pre ++ line :: post) in
  (json_loads line = Fails JSONDecodeError ->
   drain t =
   (omap (payload json_loads) pre,
    Raise (ProtocolError
             (FString (lit "could not decode json: ") (PStr line)))) /\
   unread_lines t = post) /\
  (forall e : library_exception,
     json_loads line = Fails e -> e <> JSONDecodeError ->
     drain t = (omap (payload json_loads) pre, Raise e) /\
     unread_lines t = post /\
     is_DnsdbException e = false /\
     (forall f, Raise e <> Raise (ProtocolError f))) /\
  (forall d tag,
     json_loads line = Gives (PDict d) ->
     d !! lit "cond" = Some (PStr tag) -> tag <> [] ->
     tag ∉ [COND_BEGIN; COND_ONGOING; COND_SUCCEEDED; COND_LIMITED;
            COND_FAILED] ->
     let obj := default PNone (d !! lit "obj") in
     let e := ProtocolError (FString (lit "invalid cond: ") (PStr tag)) in
     drain t =
     (omap (payload json_loads) pre ++ (if truthy obj then [obj] else []),
      Raise e) /\
     args e = [AText (FString (lit "invalid cond: ") (PStr tag))] /\
     fstring_text (FString (lit "invalid cond: ") (PStr tag)) =
     Some (lit "invalid cond: " ++ tag)).
Proof.
  intros Hpre Hne t. subst t.
  rewrite for_lines_through by done.
  rewrite drain_yield_all, unread_yield_all. split; [|split].
  - intros Hl. destruct line as [|c line]; [done|].
    simpl. rewrite Hl. simpl. by rewrite app_nil_r.
  - intros e Hl He. destruct line as [|c line]; [done|].
    simpl. rewrite Hl.
    destruct e; try done; simpl; by rewrite app_nil_r.
  - intros d tag Hl Hc Htag Hnot obj e.
    rewrite (for_lines_dict json_loads il broken line post d Hne Hl).
    cbn zeta. rewrite Hc. simpl. fold obj.
    assert (Hneq : forall s,
      s ∈ [COND_BEGIN; COND_ONGOING; COND_SUCCEEDED; COND_LIMITED;
           COND_FAILED] -> bool_decide (tag = s) = false).
    { intros s Hs. apply bool_decide_eq_false. by intros ->. }
    unfold after_payload, py_eq_str.
    rewrite !Hneq by (rewrite !elem_of_cons; tauto).
    destruct tag as [|c tag]; [done|]. simpl.
    split; [|done]. by destruct (truthy obj).
Qed.

Lemma protocol_errors_witness :
  drain (for_lines Examples.sample_loads false None
           [Examples.line_begin; Examples.line_invalid_obj]) =
  ([Examples.count_obj 33 19126549],
   Raise (ProtocolError
            (FString (lit "invalid cond: ") (PStr (lit "invalid"))))) /\
  drain (for_lines Examples.sample_loads false None
           [Examples.line_begin; Examples.line_broken]) =
  ([],
   Raise (ProtocolError (FString (lit "could not decode json: ")
                           (PStr Examples.line_broken)))) /\
  drain (for_lines Examples.sample_loads false None
           [Examples.line_begin; Examples.line_nested]) =
  ([], Raise RecursionError).
Proof.
  split; [|split].
  - destruct (protocol_errors Examples.sample_loads false None
      [Examples.line_begin] Examples.line_invalid_obj
      [] ltac:(eval_goal) ltac:(eval_goal)) as (_ & _ & H).
    destruct (H Examples.invalid_dict (lit "invalid")
      ltac:(eval_goal) ltac:(eval_goal) ltac:(eval_goal)
      ltac:(intros Hin;
            repeat (apply elem_of_cons in Hin as [Hin|Hin];
                    [vm_compute in Hin; discriminate|]);
            by apply elem_of_nil in Hin)) as [Hd _].
    exact Hd.
  - destruct (protocol_errors Examples.sample_loads false None
      [Examples.line_begin] Examples.line_broken []
      ltac:(eval_goal) ltac:(eval_goal)) as (H & _).
    exact (proj1 (H ltac:(eval_goal))).
  - destruct (protocol_errors Examples.sample_loads false None
      [Examples.line_begin] Examples.line_nested []
      ltac:(eval_goal) ltac:(discriminate)) as (_ & H & _).
    exact (proj1 (H RecursionError ltac:(eval_goal) ltac:(discriminate))).
Defined.

(** C4 as stated fails twice. The first line has an invalid condition and
    an [obj], the empty object, which is not yielded before
    [ProtocolError]. The second line cannot be parsed, [json.loads] leaving
    it with [RecursionError], and the decoder raises that exception, not
    [ProtocolError]. *)
Lemma protocol_errors_counterexample :
  (Examples.field Examples.invalid_empty_line "cond" =
   Some (PStr (lit "invalid")) /\
   Examples.field Examples.invalid_empty_line "obj" = Some (PDict ∅) /\
   drain (for_lines Examples.sample_loads false None
            [Examples.invalid_empty_line]) =
   ([], Raise (ProtocolError (FString (lit "invalid cond: ")
                                (PStr (lit "invalid")))))) /\
  (Examples.sample_loads Examples.line_nested = Fails RecursionError /\
   drain (for_lines Examples.sample_loads false None
            [Examples.line_nested]) =
   ([], Raise RecursionError)).
Proof. repeat split; eval_goal. Qed.

(** ** The generator object and the response *)

Lemma interact_exhaust t c :
  let objs := fst (drain t) in
  let done := (map Yielded objs ++ [last_answer (snd (drain t))],
               Generator Finished (S c)) in
  interact (Generator (Created t) c) (repeat CallNext (S (length objs))) = done
  /\ interact (Generator (Suspended t) c) (repeat CallNext (S (length objs)))
     = done.
Proof.
  induction t as [obj k IH | x rest]; cbn zeta in *.
  - cbn [drain]. destruct (drain k) as [objs x] eqn:Hk. cbn [fst snd] in *.
    destruct IH as [_ IH].
    change (repeat CallNext (S (length (obj :: objs))))
      with (CallNext :: repeat CallNext (S (length objs))).
    cbn [interact next gi_frame resume closed].
    rewrite IH. done.
  - by destruct x.
Qed.

Lemma interact_abandon t c k :
  (k <= length (fst (drain t)))%nat ->
  interact (Generator (Suspended t) c) (repeat CallNext k ++ [CallClose]) =
  (map Yielded (take k (fst (drain t))), Generator Finished (S c)).
Proof.
  revert k. induction t as [obj t IH | x rest]; intros k Hk.
  - cbn [drain] in *. destruct (drain t) as [objs x] eqn:Ht.
    cbn [fst snd] in *. destruct k as [|k]; [done|].
    cbn [repeat app interact next gi_frame resume closed].
    rewrite IH by (simpl in Hk; lia). done.
  - simpl in Hk. by replace k with 0%nat by lia.
Qed.

Lemma once_entered_next g :
  once_entered g -> once_entered (snd (next g)).
Proof.
  destruct g as [[t|t|] c]; unfold once_entered; simpl; try done.
  intros ->. by destruct t as [|[]].
Qed.

Lemma once_entered_close g : once_entered g -> once_entered (close g).
Proof.
  destruct g as [[t|t|] c]; unfold once_entered; simpl; try done.
  by intros ->.
Qed.

Lemma once_entered_interact g cs :
  once_entered g -> once_entered (snd (interact g cs)).
Proof.
  revert g. induction cs as [|[] cs IH]; intros g Hg; [done| |].
  - cbn [interact]. pose proof (once_entered_next g Hg) as Hn.
    destruct (next g) as [a g']. specialize (IH g' Hn).
    by destruct (interact g' cs).
  - cbn [interact]. apply IH. by apply once_entered_close.
Qed.

(** X25. Once the caller has asked the generator for a first element the
    response is closed exactly once, however the generator is left: by
    running to its end, be it a return or any exception, or by closing it
    after any number of elements. Whatever calls follow, it is never closed
    a second time. *)
Theorem closed_exactly_once json_loads res il :
  let g0 := handle_saf json_loads res il in
  let t := for_lines json_loads il (iter_error res) (iter_lines res) in
  let objs := fst (drain t) in
  interact g0 (repeat CallNext (S (length objs))) =
  (map Yielded objs ++ [last_answer (snd (drain t))], Generator Finished 1)
  /\ (forall k, (1 <= k <= length objs)%nat ->
      interact g0 (repeat CallNext k ++ [CallClose]) =
      (map Yielded (take k objs), Generator Finished 1))
  /\ (forall cs,
      let g := snd (interact g0 (CallNext :: cs)) in
      (closed g <= 1)%nat /\
      (gi_frame g = Finished <-> closed g = 1%nat)).
Proof.
  intros g0 t objs. split; [|split].
  - apply interact_exhaust.
  - intros [|k] [Hk1 Hk2]; [lia|].
    unfold g0, handle_saf. fold t.
    destruct t as [obj t' | x rest] eqn:Et.
    + cbn [repeat app interact next gi_frame resume closed].
      subst objs. cbn [drain] in *. destruct (drain t') as [objs' x'] eqn:Ed.
      cbn [fst] in *. pose proof (interact_abandon t' 0 k) as Ha.
      rewrite Ed in Ha. cbn [fst] in Ha. rewrite Ha by (simpl in Hk2; lia).
      done.
    + subst objs. simpl in Hk2. lia.
  - intros cs g.
    assert (Hinv : once_entered g).
    { subst g. cbn [interact].
      assert (H1 : once_entered (snd (next g0))).
      { unfold g0, handle_saf, next, once_entered. simpl.
        by destruct (for_lines _ _ _) as [|[]]. }
      destruct (next g0) as [a g1]. pose proof (once_entered_interact g1 cs H1).
      by destruct (interact g1 cs). }
    unfold once_entered in Hinv. destruct (gi_frame g) eqn:Hf; try done.
    + rewrite Hinv. split; [lia|]. split; [done|lia].
    + rewrite Hinv. done.
Qed.

Lemma closed_exactly_once_witness :
  interact (handle_saf Examples.sample_loads Examples.test_limited false)
    [CallNext; CallClose] =
  ([Yielded (Examples.count_obj 10392 138126549)], Generator Finished 1).
Proof.
  destruct (closed_exactly_once Examples.sample_loads Examples.test_limited
              false) as (_ & H & _).
  exact (H 1%nat ltac:(vm_compute; lia)).
Defined.

(** C5. The claim fails on a generator that is abandoned before its first
    element is asked for: closing it, or dropping it, finishes it without
    entering the body, so the [try] whose [finally] closes the response is
    never reached and the response is closed zero times. *)
Theorem abandoned_before_first_request :
  (forall json_loads res il,
     close (handle_saf json_loads res il) = Generator Finished 0)
  /\ interact (handle_saf Examples.sample_loads Examples.test_simple false)
       [CallClose] = ([], Generator Finished 0).
Proof. split; reflexivity. Qed.

(** C10. When the decoder gets to a line that [json.loads] decodes to
    something that is no object, the field extraction raises
    [AttributeError], which is not [ProtocolError] nor any other
    [DnsdbException]; the response is closed all the same. *)
Theorem non_object_line json_loads il res pre line post v :
  iter_lines res = pre ++ line :: post ->
  forallb (nonterminal json_loads) pre = true ->
  line <> [] -> json_loads line = Gives v -> (forall d, v <> PDict d) ->
  let objs := omap (payload json_loads) pre in
  drain (for_lines json_loads il (iter_error res) (iter_lines res)) =
  (objs, Raise AttributeError)
  /\ is_DnsdbException AttributeError = false
  /\ (forall f, Library AttributeError <> ProtocolError f)
  /\ interact (handle_saf json_loads res il)
       (repeat CallNext (S (length objs))) =
     (map Yielded objs ++ [Raised AttributeError], Generator Finished 1).
Proof.
  intros Hres Hpre Hne Hl Hv objs.
  assert (Hd : drain (for_lines json_loads il (iter_error res)
                        (iter_lines res)) =
               (objs, Raise AttributeError)).
  { rewrite Hres, for_lines_through by done. rewrite drain_yield_all.
    destruct line as [|c line]; [done|]. simpl. rewrite Hl.
    destruct v; simpl; rewrite ?app_nil_r; try done. by destruct (Hv d). }
  split; [done|]. split; [done|]. split; [done|].
  pose proof (proj1 (interact_exhaust
    (for_lines json_loads il (iter_error res) (iter_lines res)) 0)) as He.
  cbn zeta in He. rewrite Hd in He. exact He.
Qed.

Lemma non_object_line_witness :
  interact
    (handle_saf Examples.sample_loads
       Examples.test_non_object false)
    [CallNext] = ([Raised AttributeError], Generator Finished 1).
Proof.
  exact (proj2 (proj2 (proj2 (non_object_line Examples.sample_loads false
    Examples.test_non_object
    [Examples.line_begin] Examples.line_array [Examples.line_succeeded; []]
    (PList [PInt 1; PInt 2])
    ltac:(eval_goal) ltac:(eval_goal) ltac:(eval_goal) ltac:(eval_goal)
    ltac:(discriminate))))).
Defined.

(** * Properties of the composer and of the dispatcher *)

Import Client.

Ltac div_lia := zify; Z.to_euclidean_division_equations; lia.

Ltac decide_cmp :=
  repeat first
    [ match goal with
      | |- context [?a <? ?b] =>
          first [ rewrite (proj2 (N.ltb_lt a b)) by div_lia
                | rewrite (proj2 (N.ltb_ge a b)) by div_lia ]
      end
    | match goal with
      | |- context [?a <=? ?b] =>
          first [ rewrite (proj2 (N.leb_le a b)) by div_lia
                | rewrite (proj2 (N.leb_gt a b)) by div_lia ]
      end ].

Lemma to_N_byte_of_N n : n < 256 -> Byte.to_N (byte_of_N n) = n.
Proof.
  intros H. unfold byte_of_N.
  destruct (Byte.of_N n) as [b|] eqn:E.
  - simpl. by apply Byte.to_of_N.
  - apply Byte.of_N_None_iff in E. lia.
Qed.

(** ** Percent-encoding *)

Lemma unquote_quoter b rest :
  unquote_to_bytes (quoter b ++ rest) = b :: unquote_to_bytes rest.
Proof. destruct b; reflexivity. Qed.

Lemma unquote_quote_bytes bs : unquote_to_bytes (quote_from_bytes bs) = bs.
Proof.
  induction bs as [|b bs IH]; [done|].
  unfold quote_from_bytes in *. cbn [map concat].
  by rewrite unquote_quoter, IH.
Qed.

Lemma utf8_decode_encode_char c bs rest :
  utf8_encode_char c = Some bs ->
  utf8_decode (bs ++ rest) = cons c <$> utf8_decode rest.
Proof.
  unfold utf8_encode_char.
  destruct (N.ltb_spec c 0x80).
  { intros [= <-]. cbn [app utf8_decode].
    rewrite !to_N_byte_of_N by div_lia. by decide_cmp. }
  destruct (N.ltb_spec c 0x800).
  { intros [= <-]. cbn [app utf8_decode]. unfold is_continuation.
    rewrite !to_N_byte_of_N by div_lia. decide_cmp. cbn [andb].
    f_equal. f_equal. div_lia. }
  destruct (N.ltb_spec c 0x10000).
  { destruct (N.leb_spec 0xD800 c); destruct (N.ltb_spec c 0xE000);
      cbn [andb]; try discriminate; try (exfalso; lia).
    all: intros [= <-]; cbn [app utf8_decode]; unfold is_continuation;
      rewrite !to_N_byte_of_N by div_lia.
    all: match goal with
         | |- context [if _ && _ && (0x800 <=? ?x) && _ then _ else _] =>
             replace x with c by div_lia
         end.
    all: decide_cmp; cbn [andb negb]; done. }
  destruct (N.ltb_spec c 0x110000); [|discriminate].
  intros [= <-]. cbn [app utf8_decode]. unfold is_continuation.
  rewrite !to_N_byte_of_N by div_lia.
  match goal with
  | |- context [if _ && _ && _ && (0x10000 <=? ?x) && _ then _ else _] =>
      replace x with c by div_lia
  end.
  decide_cmp. cbn [andb]. done.
Qed.

Lemma utf8_decode_encode s bs :
  utf8_encode s = Some bs -> utf8_decode bs = Some s.
Proof.
  revert bs. induction s as [|c s IH]; intros bs.
  - by intros [= <-].
  - cbn [utf8_encode].
    destruct (utf8_encode_char c) as [b|] eqn:Ec; [|discriminate].
    destruct (utf8_encode s) as [bs'|]; [|discriminate].
    intros [= <-]. rewrite (utf8_decode_encode_char c b bs' Ec).
    by rewrite (IH bs' eq_refl).
Qed.

(** ** ASCII text through the codecs *)

Lemma encode_ascii_Some s bs :
  encode_ascii s = Some bs ->
  bs = map byte_of_N s /\ forallb (fun c => c <? 128) s = true.
Proof.
  unfold encode_ascii. destruct (forallb _ s); [|discriminate].
  by intros [= <-].
Qed.

Lemma ascii_bytes_of_ascii s :
  forallb (fun c => c <? 128) s = true -> ascii_bytes (map byte_of_N s).
Proof.
  unfold ascii_bytes. induction s as [|c s IH]; simpl; [constructor|].
  intros [Hc Hs]%andb_prop. apply N.ltb_lt in Hc. constructor; [|auto].
  rewrite to_N_byte_of_N; lia.
Qed.

Lemma utf8_decode_ascii_bytes bs :
  ascii_bytes bs -> utf8_decode bs = Some (decode_ascii bs).
Proof.
  induction 1 as [|b bs Hb _ IH]; [done|].
  cbn [utf8_decode]. rewrite (proj2 (N.ltb_lt _ 128) Hb). by rewrite IH.
Qed.

Lemma decode_ascii_is_ascii bs :
  ascii_bytes bs -> forallb (fun c => c <? 128) (decode_ascii bs) = true.
Proof.
  induction 1 as [|b bs Hb _ IH]; [done|].
  simpl. by rewrite (proj2 (N.ltb_lt _ 128) Hb).
Qed.

(** On an ASCII name the codec changes nothing: it only refuses labels
    that are empty or too long. *)
Lemma encode_idna_ascii nameprep s o :
  forallb (fun c => c <? 128) s = true ->
  encode_idna nameprep s = Ok o -> o = map byte_of_N s.
Proof.
  intros Hs. unfold encode_idna. destruct s as [|c s]; [by intros [= <-]|].
  unfold encode_ascii. rewrite Hs.
  repeat match goal with |- context [if ?b then _ else _] => destruct b end;
    congruence.
Qed.

(** *** The codec only produces ASCII bytes *)

Lemma digit_ascii i : Byte.to_N (digit i) < 128.
Proof.
  unfold digit.
  destruct (nth_in_or_default (Z.to_nat i) digits x00) as [Hin | ->];
    [|by vm_compute].
  revert Hin. generalize (nth (Z.to_nat i) digits "000"%byte). intros b.
  vm_compute. intros H.
  repeat (destruct H as [<-|H]; [reflexivity|]). destruct H.
Qed.

Lemma generalized_integer_ascii fuel n bias j :
  ascii_bytes (generalized_integer_while fuel n bias j).
Proof.
  revert n j. induction fuel as [|fuel IH]; intros n j; simpl.
  - constructor.
  - destruct (n <? T j bias)%Z.
    + repeat constructor. apply digit_ascii.
    + constructor; [apply digit_ascii | apply IH].
Qed.

Lemma generate_integers_ascii baselen points bias deltas :
  ascii_bytes (generate_integers_for baselen points bias deltas).
Proof.
  revert points bias. induction deltas as [|d ds IH]; intros; simpl.
  - constructor.
  - apply Forall_app. split; [apply generalized_integer_ascii | apply IH].
Qed.

Lemma punycode_encode_ascii text : ascii_bytes (punycode_encode text).
Proof.
  unfold punycode_encode, segregate.
  set (base := map byte_of_N (List.filter (fun c => c <? 128) text)).
  assert (Hb : ascii_bytes base).
  { apply ascii_bytes_of_ascii. apply forallb_forall.
    intros c Hc. by apply List.filter_In in Hc as [_ Hc]. }
  set (ext := generate_integers _ _).
  assert (He : ascii_bytes ext) by apply generate_integers_ascii.
  destruct base; [done|].
  apply Forall_app. split; [done|]. constructor; [by vm_compute | done].
Qed.

Lemma ToASCII_ascii nameprep label o :
  ToASCII nameprep label = Ok o -> ascii_bytes o.
Proof.
  unfold ToASCII.
  destruct (encode_ascii label) as [bs|] eqn:E1.
  { apply encode_ascii_Some in E1 as [-> H].
    destruct (label_size_ok _); [|discriminate]. intros [= <-].
    by apply ascii_bytes_of_ascii. }
  destruct (nameprep label) as [label'|e]; [|discriminate]. simpl.
  destruct (encode_ascii label') as [bs|] eqn:E2.
  { apply encode_ascii_Some in E2 as [-> H].
    destruct (label_size_ok _); [|discriminate]. intros [= <-].
    by apply ascii_bytes_of_ascii. }
  destruct (bool_decide _); [discriminate|].
  destruct (label_size_ok _); [|discriminate]. intros [= <-].
  unfold ascii_bytes. repeat (constructor; [by vm_compute|]).
  apply punycode_encode_ascii.
Qed.

Lemma join_labels_ascii nameprep labels joined o :
  ascii_bytes joined ->
  join_labels nameprep labels joined = Ok o -> ascii_bytes o.
Proof.
  revert joined. induction labels as [|l ls IH]; intros joined Hj; simpl.
  - by intros [= <-].
  - destruct (ToASCII nameprep l) as [b|] eqn:E; [|discriminate]. simpl.
    apply IH. apply ToASCII_ascii in E.
    apply Forall_app. split; [|done].
    destruct joined; [done|]. apply Forall_app. split; [done|].
    constructor; [by vm_compute | constructor].
Qed.

Lemma encode_idna_ascii_bytes nameprep input o :
  encode_idna nameprep input = Ok o -> ascii_bytes o.
Proof.
  unfold encode_idna. destruct input as [|c s]; [intros [= <-]; constructor|].
  destruct (encode_ascii (c :: s)) as [bs|] eqn:E.
  - apply encode_ascii_Some in E as [-> H].
    repeat match goal with |- context [if ?b then _ else _] => destruct b end;
      try discriminate.
    intros [= <-]. by apply (ascii_bytes_of_ascii (c :: s)).
  - destruct (List.last _ _).
    + destruct (join_labels _ _ _) as [j|] eqn:Ej; [|discriminate].
      simpl. intros [= <-]. apply Forall_app. split.
      * eapply join_labels_ascii; [|exact Ej]. constructor.
      * constructor; [by vm_compute | constructor].
    + destruct (join_labels _ _ _) as [j|] eqn:Ej; [|discriminate].
      simpl. intros [= <-]. rewrite app_nil_r.
      eapply join_labels_ascii; [|exact Ej]. constructor.
Qed.

(** ** The composed paths *)

(** C7. An rrset query is sent to [<prefix>/rrset/name/] followed by the
    owner name, IDNA-encoded then percent-encoded. A given [rrtype] is the
    next segment. A given bailiwick, IDNA-encoded then percent-encoded, is
    the last segment, after the [rrtype] or else after [ANY]. A field that
    is missing or empty adds no segment. *)
Theorem rrset_path (nameprep : pystr -> result pystr) (P R : Type)
    (saf_query : pystr -> bool -> P -> result R)
    prefix owner_name rrtype bailiwick ignore_limited params o :
  encode_idna nameprep owner_name = Ok o ->
  let base := prefix ++ lit "/rrset/name/" ++ quote_from_bytes o in
  let call := _gen_rrset nameprep saf_query prefix owner_name rrtype
                bailiwick ignore_limited params in
  (given bailiwick = false ->
   call = saf_query
            (if given rrtype then base ++ lit "/" ++ default [] rrtype
             else base)
            ignore_limited params) /\
  (forall b b', bailiwick = Some b -> b <> [] ->
   encode_idna nameprep b = Ok b' ->
   call = saf_query
            (base ++ lit "/"
             ++ (if given rrtype then default [] rrtype else RRTYPE_ANY)
             ++ lit "/" ++ quote_from_bytes b')
            ignore_limited params).
Proof.
  intros Ho base call. subst call. unfold _gen_rrset. rewrite Ho.
  cbn [mbind result_bind _quote quote]. fold base. split.
  - intros ->. by destruct (given rrtype).
  - intros b b' -> Hb Hb'. destruct b as [|c b]; [done|].
    cbn [given]. change (default [] (Some (c :: b))) with (c :: b).
    rewrite Hb'. cbn [mbind result_bind _quote quote].
    destruct (given rrtype); cbn [negb]; by rewrite <- ?app_assoc.
Qed.

Lemma rrset_path_witness :
  _gen_rrset Examples.sample_nameprep Examples.record_path (lit "abc")
    (lit "de/f") None (Some (lit "gh,i")) false ∅ =
  Ok (lit "abc/rrset/name/de%2Ff/ANY/gh%2Ci").
Proof.
  exact (proj2 (rrset_path Examples.sample_nameprep _ _ Examples.record_path
    (lit "abc") (lit "de/f") None (Some (lit "gh,i")) false ∅
    (map byte_of_N (lit "de/f")) ltac:(eval_goal))
    (lit "gh,i") (map byte_of_N (lit "gh,i"))
    eq_refl ltac:(eval_goal) ltac:(eval_goal)).
Defined.

(** C8. An rdata query by IP is sent to [<prefix>/rdata/ip/] followed by
    the subject in which every [/] has become [,] and every other
    character is as the caller gave it, with no percent-encoding. *)
Theorem rdata_ip_path (P R : Type)
    (saf_query : pystr -> bool -> P -> result R)
    prefix (ip : pystr) ignore_limited params :
  _gen_rdata_ip saf_query prefix ip ignore_limited params =
  saf_query (prefix ++ lit "/rdata/ip/" ++ replace_slash ip)
    ignore_limited params
  /\ length (replace_slash ip) = length ip
  /\ (forall (i : nat) (c : N), ip !! i = Some c ->
      replace_slash ip !! i = Some (if c =? 47 then 44 else c))
  /\ (47 ∉ replace_slash ip)
  /\ (47 ∉ ip -> replace_slash ip = ip)
  /\ replace_slash (lit "1.2.3.0/24") = lit "1.2.3.0,24".
Proof.
  split; [done|]. unfold replace_slash. split; [by rewrite length_map|].
  split; [|split; [|split; [|done]]].
  - intros i c Hi. by rewrite list_lookup_fmap, Hi.
  - intros [c [Hc Hin]]%list_elem_of_fmap.
    destruct (N.eqb_spec c 47); [discriminate | congruence].
  - intros Hn. induction ip as [|c ip IH]; [done|].
    apply not_elem_of_cons in Hn as [Hc Hn]. simpl.
    destruct (N.eqb_spec c 47); [congruence|]. by rewrite IH.
Qed.

Lemma rdata_ip_path_witness :
  replace_slash (lit "1.2.3.4-5.6.7.8") = lit "1.2.3.4-5.6.7.8".
Proof.
  destruct (rdata_ip_path _ _ Examples.record_path (lit "abc")
              (lit "1.2.3.4-5.6.7.8") false ∅) as (_ & _ & _ & _ & H & _).
  apply H. intros Hin.
  repeat (apply elem_of_cons in Hin as [Hin|Hin];
          [vm_compute in Hin; discriminate|]).
  by apply elem_of_nil in Hin.
Defined.

(** ** Percent-decoding the subject segment *)

Lemma quoted_no_slash bs :
  forallb (fun c => negb (c =? 47)) (quote_from_bytes bs) = true.
Proof.
  induction bs as [|b bs IH]; [done|].
  change (quote_from_bytes (b :: bs)) with (quoter b ++ quote_from_bytes bs).
  rewrite forallb_app, IH, andb_true_r. destruct b; reflexivity.
Qed.

(** C9, amended. The value of a flex search is percent-encoded as it is,
    and percent-decoding its segment gives the value back, whatever
    characters it holds. The subject of an rrset or rdata-name query, and
    the bailiwick of an rrset query, is IDNA-encoded first: the segment
    that [_gen_rrset] and [_gen_rdata_name] put in the path is the quoted
    IDNA form, it holds no [/], and percent-decoding it gives the IDNA form
    back, which is the subject itself when the subject is ASCII, and an
    ASCII name other than the subject when it is not. *)
Theorem percent_roundtrip :
  (forall (P R : Type) (saf_query : pystr -> bool -> P -> result R)
          method key value rrtype ignore_limited params bs,
     utf8_encode value = Some bs ->
     let segment := quote_from_bytes bs in
     _gen_flex saf_query method key value rrtype ignore_limited params =
     saf_query
       (let path := method ++ lit "/" ++ key ++ lit "/" ++ segment in
        if given rrtype then path ++ lit "/" ++ default [] rrtype else path)
       ignore_limited params
     /\ unquote segment = Some value) /\
  (forall (nameprep : pystr -> result pystr) (P R : Type)
          (saf_query : pystr -> bool -> P -> result R)
          prefix subject rrtype ignore_limited params o,
     encode_idna nameprep subject = Ok o ->
     let segment := quote_from_bytes o in
     let tail := if given rrtype then lit "/" ++ default [] rrtype else [] in
     _gen_rrset nameprep saf_query prefix subject rrtype None ignore_limited
       params
     = saf_query (prefix ++ lit "/rrset/name/" ++ segment ++ tail)
         ignore_limited params
     /\ _gen_rdata_name nameprep saf_query prefix subject rrtype
          ignore_limited params
        = saf_query (prefix ++ lit "/rdata/name/" ++ segment ++ tail)
            ignore_limited params
     /\ (forall owner o',
           encode_idna nameprep owner = Ok o' -> subject <> [] ->
           _gen_rrset nameprep saf_query prefix owner rrtype (Some subject)
             ignore_limited params
           = saf_query
               (prefix ++ lit "/rrset/name/" ++ quote_from_bytes o'
                ++ lit "/"
                ++ (if given rrtype then default [] rrtype else RRTYPE_ANY)
                ++ lit "/" ++ segment)
               ignore_limited params)
     /\ (47 ∉ segment)
     /\ _quote (Bytes o) = Ok segment
     /\ unquote_to_bytes segment = o
     /\ unquote segment = Some (decode_ascii o)
     /\ (forallb (fun c => c <? 128) subject = true ->
         unquote segment = Some subject)
     /\ (forallb (fun c => c <? 128) subject = false ->
         unquote segment <> Some subject)).
Proof.
  split.
  - intros P R saf_query method key value rrtype il params bs Hbs segment.
    split.
    + unfold _gen_flex, _quote, quote. by rewrite Hbs.
    + unfold unquote, segment. rewrite unquote_quote_bytes.
      by apply utf8_decode_encode.
  - intros nameprep P R saf_query prefix subject rrtype il params o Ho
      segment tail.
    pose proof (encode_idna_ascii_bytes nameprep subject o Ho) as Hascii.
    assert (Hu : unquote segment = Some (decode_ascii o)).
    { unfold unquote, segment. rewrite unquote_quote_bytes.
      by apply utf8_decode_ascii_bytes. }
    split; [|split; [|split; [|split]]].
    + unfold _gen_rrset. rewrite Ho.
      cbn [mbind result_bind _quote quote given]. fold segment.
      subst tail.
      destruct (given rrtype); by rewrite <- ?app_assoc, ?app_nil_r.
    + unfold _gen_rdata_name. rewrite Ho.
      cbn [mbind result_bind _quote quote]. fold segment.
      subst tail.
      destruct (given rrtype); by rewrite <- ?app_assoc, ?app_nil_r.
    + intros owner o' Ho' Hne. unfold _gen_rrset. rewrite Ho'.
      destruct subject as [|c subject]; [done|].
      cbn [mbind result_bind _quote quote given].
      change (default [] (Some (c :: subject))) with (c :: subject).
      rewrite Ho. cbn [mbind result_bind _quote quote]. fold segment.
      destruct (given rrtype); cbn [negb]; by rewrite <- ?app_assoc.
    + intros Hin. apply list_elem_of_In in Hin.
      pose proof (quoted_no_slash o) as Hq. rewrite forallb_forall in Hq.
      by apply Hq in Hin.
    + split; [done|]. split; [apply unquote_quote_bytes|].
      split; [done|]. split.
      * intros Hs. rewrite Hu.
        rewrite (encode_idna_ascii nameprep subject o Hs Ho).
        unfold decode_ascii. rewrite map_map. f_equal.
        clear Ho Hascii Hu segment.
        induction subject as [|c s IH]; [done|].
        simpl in Hs. apply andb_prop in Hs as [Hc Hs]. apply N.ltb_lt in Hc.
        simpl. rewrite to_N_byte_of_N by lia. by rewrite IH.
      * intros Hs. rewrite Hu. intros [= Heq].
        apply decode_ascii_is_ascii in Hascii. rewrite Heq in Hascii.
        congruence.
Qed.

Lemma percent_roundtrip_witness :
  unquote (lit "a%20b%2Fc%2C%C3%A9") = Some (lit "a b/c," ++ [0xE9]) /\
  unquote (lit "de%2Ff") = Some (lit "de/f") /\
  _gen_rdata_name Examples.sample_nameprep Examples.record_path (lit "abc")
    (lit "de/f") None false ∅ = Ok (lit "abc/rdata/name/de%2Ff").
Proof.
  destruct percent_roundtrip as [Hflex Hidna]. split; [|split].
  - exact (proj2 (Hflex _ _ Examples.record_path (lit "regex") (lit "rrnames")
      (lit "a b/c," ++ [0xE9]) None false ∅
      (map byte_of_N (lit "a b/c,") ++ [byte_of_N 0xC3; byte_of_N 0xA9])
      ltac:(eval_goal))).
  - destruct (Hidna Examples.sample_nameprep _ _ Examples.record_path
      (lit "abc") (lit "de/f") None false ∅
      (map byte_of_N (lit "de/f")) ltac:(eval_goal))
      as (_ & _ & _ & _ & _ & _ & _ & H & _).
    exact (H ltac:(eval_goal)).
  - destruct (Hidna Examples.sample_nameprep _ _ Examples.record_path
      (lit "abc") (lit "de/f") None false ∅
      (map byte_of_N (lit "de/f")) ltac:(eval_goal))
      as (_ & H & _).
    exact H.
Defined.

(** C9 as stated fails on the owner name of [test_rrset_idna], U+00E5
    U+222B U+00E7: its path segment is the IDNA form, and percent-decoding
    the segment gives that form, not the owner name. *)
Lemma percent_roundtrip_counterexample :
  _gen_rrset Examples.sample_nameprep Examples.record_path (lit "abc")
    Examples.owner_idna None None false ∅ =
  Ok (lit "abc/rrset/name/" ++ lit "xn--5cae166w") /\
  unquote (lit "xn--5cae166w") = Some (lit "xn--5cae166w") /\
  lit "xn--5cae166w" <> Examples.owner_idna.
Proof. repeat split; eval_goal. Qed.

(** ** The status of the response *)

(** C6, amended. A response with status 401 or 403 raises [AccessDenied],
    416 [OffsetError], 429 [QuotaExceeded] and 503 [ConcurrencyExceeded],
    each with the text of the body as its argument. Any other status from
    400 to 599 raises [QueryError], chained to the [HTTPError] of the
    transport and raised without argument. In all these cases no generator
    is built. Any other status raises nothing: the response goes to the
    decoder. *)
Theorem status_mapping (json_loads : pystr -> library_result pyjson)
    (session_get : request -> result response)
    self path ignore_limited params res :
  session_get
    {| req_url := server self ++ lit "/" ++ API_PREFIX ++ lit "/" ++ path;
       req_headers := _headers self;
       req_params := params ∪ _base_params self;
       req_proxies := proxies self;
       req_verify := negb (insecure self);
       req_stream := true |} = Ok res ->
  let status := status_code res in
  let outcome := _saf_query json_loads session_get self path ignore_limited
                   params in
  let mapped := [401; 403; 416; 429; 503]%Z in
  (status = 401%Z \/ status = 403%Z ->
   outcome = Raises (AccessDenied (text res))) /\
  (status = 416%Z -> outcome = Raises (OffsetError (text res))) /\
  (status = 429%Z -> outcome = Raises (QuotaExceeded (text res))) /\
  (status = 503%Z -> outcome = Raises (ConcurrencyExceeded (text res))) /\
  (status ∉ mapped -> (400 <= status < 600)%Z ->
   outcome = Raises (QueryError (HTTPError status)) /\
   args (QueryError (HTTPError status)) = []) /\
  (status ∉ mapped -> ~ (400 <= status < 600)%Z ->
   outcome = Ok (handle_saf json_loads res ignore_limited)).
Proof.
  intros Hget status outcome mapped. subst outcome.
  unfold _saf_query. rewrite Hget. cbn [mbind result_bind].
  unfold _raise_error. fold status.
  repeat apply conj.
  - by intros [-> | ->].
  - by intros ->.
  - by intros ->.
  - by intros ->.
  - intros Hm Hr.
    assert (Hnone : _STATUS_CODE_MAP !! status = None).
    { unfold _STATUS_CODE_MAP. subst mapped.
      rewrite !not_elem_of_cons in Hm.
      repeat (rewrite lookup_insert_ne by (intros ?; intuition congruence)).
      apply lookup_singleton_ne. intros ?; intuition congruence. }
    rewrite Hnone. unfold raise_for_status. fold status.
    replace ((400 <=? status)%Z && (status <? 600)%Z) with true by lia.
    done.
  - intros Hm Hr.
    assert (Hnone : _STATUS_CODE_MAP !! status = None).
    { unfold _STATUS_CODE_MAP. subst mapped.
      rewrite !not_elem_of_cons in Hm.
      repeat (rewrite lookup_insert_ne by (intros ?; intuition congruence)).
      apply lookup_singleton_ne. intros ?; intuition congruence. }
    rewrite Hnone. unfold raise_for_status. fold status.
    replace ((400 <=? status)%Z && (status <? 600)%Z) with false by lia.
    done.
Qed.

Lemma status_mapping_witness :
  _saf_query Examples.sample_loads
    (Examples.answering (Response 403 (lit "forbidden") [] None))
    Examples.unit_test_client (lit "test/path") false ∅ =
  Raises (AccessDenied (lit "forbidden")).
Proof.
  destruct (status_mapping Examples.sample_loads
    (Examples.answering (Response 403 (lit "forbidden") [] None))
    Examples.unit_test_client (lit "test/path") false ∅
    (Response 403 (lit "forbidden") [] None) eq_refl) as (H & _).
  apply H. by right.
Defined.

(** C6 as stated fails: on status 404 the [QueryError] that is raised has
    no argument, so it does not carry the text of the body; and on status
    304, which is not a 2xx status, nothing is raised and the decoder is
    given the response. *)
Lemma status_mapping_counterexample :
  _saf_query Examples.sample_loads
    (Examples.answering (Response 404 (lit "file not found") [] None))
    Examples.unit_test_client (lit "file/not/found") false ∅ =
  Raises (QueryError (HTTPError 404)) /\
  args (QueryError (HTTPError 404)) <>
  [AValue (PStr (lit "file not found"))] /\
  _saf_query Examples.sample_loads
    (Examples.answering (Response 304 (lit "not modified") [] None))
    Examples.unit_test_client (lit "test/path") false ∅ =
  Ok (handle_saf Examples.sample_loads
        (Response 304 (lit "not modified") [] None) false).
Proof. repeat split; eval_goal. Qed.

(** * Further properties of the decoder *)

Section DecoderCases.
Variable json_loads : pystr -> library_result pyjson.
Variable ignore_limited : bool.
Variable broken : option library_exception.

Let for_lines := for_lines json_loads ignore_limited broken.
Let nonterminal := nonterminal json_loads.
Let payload := payload json_loads.
Let stops := stops json_loads ignore_limited.

(** A line on which the loop does not go on: its payload, then its exit. *)
Lemma for_lines_terminal line rest :
  nonterminal line = false ->
  exists x, stops line x /\
    for_lines (line :: rest) = yield_all (option_list (payload line)) (Stop x rest).
Proof.
  unfold nonterminal, payload, Saf.nonterminal, Saf.payload, for_lines.
  destruct line as [|c line]; [done|].
  set (l := c :: line). intros Hnt. cbn [Saf.for_lines].
  change (negb (truthy (PStr l))) with false. cbv iota.
  destruct (json_loads l) as [v|e] eqn:Hl.
  2:{ destruct e;
        try (eexists; split; [by apply stops_uncaught|done]).
      eexists. split; [by apply stops_undecodable|done]. }
  destruct v as [| | | | | |d];
    try (exists (Raise AttributeError); split;
         [by eapply stops_no_object|done]).
  cbn [py_get]. cbv zeta in Hnt |- *.
  set (obj := default PNone (d !! lit "obj")).
  destruct (d !! lit "cond") as [cond|] eqn:Hc; [|done].
  cbn [default from_option id] in Hnt |- *.
  destruct (py_eq_str cond COND_BEGIN) eqn:Hb; [done|].
  destruct (py_eq_str cond COND_ONGOING) eqn:Ho; [done|].
  destruct (truthy cond) eqn:Ht; [|done]. clear Hnt.
  unfold after_payload. rewrite Ho, Ht. cbn [orb negb].
  destruct (py_eq_str cond COND_SUCCEEDED) eqn:Hs.
  { apply py_eq_str_true in Hs as ->. exists Return.
    split; [by eapply stops_succeeded|done]. }
  destruct (py_eq_str cond COND_LIMITED) eqn:Hlim.
  { apply py_eq_str_true in Hlim as ->. eexists.
    split; [by eapply stops_limited|].
    cbn [orb]. by destruct ignore_limited, (truthy obj). }
  destruct (py_eq_str cond COND_FAILED) eqn:Hf.
  { apply py_eq_str_true in Hf as ->. eexists.
    split; [by eapply stops_failed|]. cbn [orb]. by destruct (truthy obj). }
  eexists. split.
  - eapply stops_invalid; [done..|].
    intros Hin. cbn [map] in Hin.
    repeat (apply elem_of_cons in Hin as [->|Hin];
            [cbn in *; rewrite ?bool_decide_eq_false in *; congruence|]).
    by apply elem_of_nil in Hin.
  - cbn [orb]. by destruct (truthy obj).
Qed.

(** The decoder is run by the first line on which the loop does not go on:
    either there is none and the whole stream is read, or the lines before
    it give their payloads, it gives its own and its exit, and the lines
    after it are not read. *)
Lemma for_lines_decompose lines :
  (forallb nonterminal lines = true /\
   for_lines lines =
   yield_all (omap payload lines) (Stop (end_of_lines broken) []))
  \/ (exists pre line post x,
        lines = pre ++ line :: post /\
        forallb nonterminal pre = true /\ nonterminal line = false /\
        stops line x /\
        for_lines lines =
        yield_all (omap payload pre ++ option_list (payload line))
          (Stop x post)).
Proof.
  induction lines as [|l ls IH]; [left; by destruct broken|].
  destruct (nonterminal l) eqn:Hl.
  - pose proof (for_lines_nonterminal json_loads ignore_limited broken l ls Hl)
      as Hstep.
    fold for_lines payload in Hstep.
    assert (Hy : forall t, yield_all (option_list (payload l))
                   (yield_all (omap payload ls) t) =
                 yield_all (omap payload (l :: ls)) t).
    { intros t. unfold payload. simpl.
      by destruct (Saf.payload json_loads l). }
    destruct IH as [[Hall Ht]
                   | (pre & line & post & x & -> & Hp & Hn & Hs & Ht)].
    + left. split; [by cbn [forallb]; rewrite Hl|].
      by rewrite Hstep, Ht, Hy.
    + right. exists (l :: pre), line, post, x.
      split; [done|]. split; [by cbn [forallb]; rewrite Hl|].
      split; [done|]. split; [done|].
      rewrite Hstep, Ht. unfold payload. simpl.
      by destruct (Saf.payload json_loads l).
  - right. destruct (for_lines_terminal l ls Hl) as (x & Hs & Ht).
    by exists [], l, ls, x.
Qed.
End DecoderCases.

Lemma drain_map_exit f t :
  drain (map_exit f t) = (fst (drain t), f (snd (drain t))).
Proof.
  induction t as [obj k IH | x rest]; [|done].
  cbn [map_exit drain]. rewrite IH. by destruct (drain k).
Qed.

Lemma unread_map_exit f t : unread_lines (map_exit f t) = unread_lines t.
Proof. induction t; simpl; auto. Qed.

Lemma for_lines_ignore_limited json_loads broken lines :
  for_lines json_loads true broken lines =
  map_exit swallow_limited (for_lines json_loads false broken lines).
Proof.
  induction lines as [|l ls IH]; [by destruct broken|].
  cbn [for_lines]. destruct (negb (truthy (PStr l))); [done|].
  destruct (json_loads l) as [v|e]; [|by destruct e].
  destruct (py_get v (lit "cond")) as [cond|]; [|done].
  destruct (py_get v (lit "obj")) as [obj|]; [|done].
  destruct (py_get v (lit "msg")) as [msg|]; [|done].
  destruct (py_eq_str cond COND_BEGIN); [done|].
  destruct (py_eq_str cond COND_SUCCEEDED); [done|].
  unfold after_payload.
  destruct (py_eq_str cond COND_ONGOING || negb (truthy cond));
    destruct (py_eq_str cond COND_LIMITED);
    destruct (py_eq_str cond COND_FAILED);
    destruct (truthy obj); cbn [map_exit swallow_limited];
    by rewrite ?IH.
Qed.

Lemma drain_for_lines_cons json_loads il broken l ls1 ls2 :
  drain (for_lines json_loads il broken ls1) =
  drain (for_lines json_loads il broken ls2) ->
  drain (for_lines json_loads il broken (l :: ls1)) =
  drain (for_lines json_loads il broken (l :: ls2)).
Proof.
  intros H. cbn [for_lines]. destruct (negb (truthy (PStr l))); [done|].
  destruct (json_loads l) as [v|e]; [|by destruct e].
  destruct (py_get v (lit "cond")) as [cond|]; [|done].
  destruct (py_get v (lit "obj")) as [obj|]; [|done].
  destruct (py_get v (lit "msg")) as [msg|]; [|done].
  destruct (py_eq_str cond COND_BEGIN); [done|].
  destruct (py_eq_str cond COND_SUCCEEDED); [done|].
  destruct (after_payload il cond msg); destruct (truthy obj);
    cbn [drain]; by rewrite ?H.
Qed.

Lemma payload_truthy json_loads line obj :
  payload json_loads line = Some obj -> truthy obj = true.
Proof.
  unfold payload. destruct line; [done|].
  destruct (json_loads _) as [[]|e]; try done.
  cbv zeta. destruct (_ || _); [done|].
  destruct (truthy _) eqn:Ht; [|done]. by intros [= <-].
Qed.

Lemma payloads_truthy json_loads lines :
  Forall (fun obj => truthy obj = true) (omap (payload json_loads) lines).
Proof.
  induction lines as [|l ls IH]; [constructor|].
  simpl. destruct (payload json_loads l) eqn:Hp; [|done].
  constructor; [by eapply payload_truthy | done].
Qed.

Lemma payloads_length json_loads lines :
  (length (omap (payload json_loads) lines) <= length lines)%nat.
Proof.
  induction lines as [|l ls IH]; [done|].
  unfold omap in *. simpl. destruct (payload json_loads l); simpl; lia.
Qed.

Lemma nonterminal_not_blank json_loads line :
  nonterminal json_loads line = false -> line <> [].
Proof. by destruct line. Qed.

(** The decoder on a stream that stops at [line]. *)
Lemma for_lines_stops json_loads il broken pre line post x :
  forallb (nonterminal json_loads) pre = true ->
  for_lines json_loads il broken (line :: post) =
  yield_all (option_list (payload json_loads line)) (Stop x post) ->
  drain (for_lines json_loads il broken (pre ++ line :: post)) =
  (omap (payload json_loads) pre ++ option_list (payload json_loads line), x)
  /\ unread_lines (for_lines json_loads il broken (pre ++ line :: post)) = post.
Proof.
  intros Hpre Hl. rewrite for_lines_through by done.
  rewrite drain_yield_all, unread_yield_all, Hl.
  rewrite drain_yield_all, unread_yield_all. simpl.
  by rewrite app_nil_r.
Qed.

(** X1. When the decoder gets to a [succeeded] line it returns, having
    yielded the payloads of the lines before it and nothing from the line
    itself; the lines after it are left unread, whatever they hold. *)
Theorem succeeded_stream json_loads il broken pre line post d :
  forallb (nonterminal json_loads) pre = true ->
  line <> [] -> json_loads line = Gives (PDict d) ->
  d !! lit "cond" = Some (PStr COND_SUCCEEDED) ->
  drain (for_lines json_loads il broken (pre ++ line :: post)) =
  (omap (payload json_loads) pre, Return)
  /\ unread_lines (for_lines json_loads il broken (pre ++ line :: post)) = post.
Proof.
  intros Hpre Hne Hl Hc.
  rewrite for_lines_through by done.
  rewrite drain_yield_all, unread_yield_all.
  rewrite (for_lines_dict json_loads il broken line post d Hne Hl). cbn zeta.
  rewrite Hc. simpl. by rewrite app_nil_r.
Qed.

Lemma succeeded_stream_witness :
  drain (for_lines Examples.sample_loads false None
           (iter_lines Examples.test_simple)) =
  ([Examples.count_obj 10392 138126549], Return).
Proof.
  exact (proj1 (succeeded_stream Examples.sample_loads false None
    [Examples.line_begin; Examples.line_obj] Examples.line_succeeded [[]]
    {[ lit "cond" := PStr (lit "succeeded") ]}
    ltac:(eval_goal) ltac:(eval_goal) ltac:(eval_goal) ltac:(eval_goal))).
Defined.

(** X2. When the decoder gets to a [failed] line it raises [QueryFailed]
    with the [msg] of the line, or with [None] when the line has none,
    after the payloads of the lines before and the payload of the line
    itself; [ignore_limited] changes nothing to this, and the lines after
    are left unread. *)
Theorem failed_stream json_loads il broken pre line post d :
  forallb (nonterminal json_loads) pre = true ->
  line <> [] -> json_loads line = Gives (PDict d) ->
  d !! lit "cond" = Some (PStr COND_FAILED) ->
  let obj := default PNone (d !! lit "obj") in
  drain (for_lines json_loads il broken (pre ++ line :: post)) =
  (omap (payload json_loads) pre ++ (if truthy obj then [obj] else []),
   Raise (QueryFailed (default PNone (d !! lit "msg"))))
  /\ unread_lines (for_lines json_loads il broken (pre ++ line :: post)) = post.
Proof.
  intros Hpre Hne Hl Hc obj.
  rewrite for_lines_through by done.
  rewrite drain_yield_all, unread_yield_all.
  rewrite (for_lines_dict json_loads il broken line post d Hne Hl). cbn zeta.
  rewrite Hc. fold obj. simpl. by destruct (truthy obj).
Qed.

Lemma failed_stream_witness :
  drain (for_lines Examples.sample_loads true None
           (iter_lines Examples.test_failure)) =
  ([Examples.count_obj 33 19126549],
   Raise (QueryFailed
            (PStr (lit "Processing timeout; results may be incomplete")))).
Proof.
  exact (proj1 (failed_stream Examples.sample_loads true None
    [Examples.line_begin] Examples.line_failed [[]]
    {[ lit "cond" := PStr (lit "failed");
       lit "msg" :=
         PStr (lit "Processing timeout; results may be incomplete");
       lit "obj" := Examples.count_obj 33 19126549 ]}
    ltac:(eval_goal) ltac:(eval_goal) ltac:(eval_goal) ltac:(eval_goal))).
Defined.

(** X3. [ignore_limited] never changes the objects that are yielded nor
    the lines that are read: it only turns the [QueryLimited] of the
    decoder into a return. With it set, [QueryLimited] is never raised. *)
Theorem ignore_limited_effect json_loads broken lines :
  let strict := for_lines json_loads false broken lines in
  let lenient := for_lines json_loads true broken lines in
  drain lenient = (fst (drain strict), swallow_limited (snd (drain strict)))
  /\ unread_lines lenient = unread_lines strict
  /\ (forall msg, snd (drain lenient) <> Raise (QueryLimited msg))
  /\ ((forall msg, snd (drain strict) <> Raise (QueryLimited msg)) <->
      drain lenient = drain strict).
Proof.
  intros strict lenient. subst lenient.
  rewrite for_lines_ignore_limited. fold strict.
  rewrite drain_map_exit, unread_map_exit.
  destruct (drain strict) as [objs x]. cbn [fst snd].
  split; [done|]. split; [done|]. split.
  - intros msg. by destruct x as [|[]].
  - split.
    + intros H. destruct x as [|[]]; try done. by destruct (H msg).
    + intros [= H] msg ->. discriminate.
Qed.

(** X4. Blank lines are skipped wherever they stand: a stream and the
    same stream without its blank lines give the same objects and the same
    exit. *)
Theorem blank_lines_ignored json_loads il broken lines :
  drain (for_lines json_loads il broken
           (List.filter (fun line => truthy (PStr line)) lines)) =
  drain (for_lines json_loads il broken lines).
Proof.
  induction lines as [|l ls IH]; [done|].
  cbn [List.filter]. destruct (truthy (PStr l)) eqn:Hl.
  - by apply drain_for_lines_cons.
  - rewrite IH. cbn [for_lines]. by rewrite Hl.
Qed.

(** X5. The decoder only moves forward and yields at most one object for
    each line it reads; every object it yields is true in Python's sense,
    so it never hands [None] or an empty object to the caller. *)
Theorem yields_bounded json_loads il broken lines :
  let t := for_lines json_loads il broken lines in
  exists read,
    lines = read ++ unread_lines t
    /\ (length (fst (drain t)) <= length read)%nat
    /\ Forall (fun obj => truthy obj = true) (fst (drain t)).
Proof.
  intros t. subst t.
  destruct (for_lines_decompose json_loads il broken lines)
    as [[Hall Ht] | (pre & line & post & x & -> & Hp & Hn & Hs & Ht)].
  - exists lines. rewrite Ht, drain_yield_all, unread_yield_all. simpl.
    rewrite !app_nil_r. split; [done|].
    split; [apply payloads_length | apply payloads_truthy].
  - exists (pre ++ [line]). rewrite Ht, drain_yield_all, unread_yield_all.
    simpl. rewrite app_nil_r, <- app_assoc. split; [done|].
    pose proof (payloads_length json_loads pre) as Hlen.
    pose proof (payloads_truthy json_loads pre) as Htr.
    destruct (payload json_loads line) as [obj|] eqn:Hpl; simpl.
    + rewrite !length_app. simpl. split; [lia|].
      apply Forall_app. split; [done|].
      constructor; [by eapply payload_truthy | constructor].
    + rewrite app_nil_r, length_app. simpl. split; [lia | done].
Qed.

(** X6. The decoder returns only on a line it has read whose condition is
    [succeeded], or [limited] under [ignore_limited]: the end of the input
    alone never makes a stream succeed. Otherwise it leaves with an
    exception of its own, [QueryLimited], [QueryFailed], [QueryTruncated]
    or [ProtocolError], with the [AttributeError] of a line that is no
    object, or with an exception it lets through as it is: the one
    [json.loads] raised on a line, if not [JSONDecodeError], or the one the
    line iterator raised once all its lines were read. *)
Theorem exits_of_the_decoder json_loads il broken lines :
  let t := for_lines json_loads il broken lines in
  (decoder_exit (snd (drain t)) = true
   \/ (exists line (e : library_exception),
         line ∈ lines /\ json_loads line = Fails e /\ e <> JSONDecodeError
         /\ snd (drain t) = Raise e)
   \/ (exists e : library_exception,
         broken = Some e /\ snd (drain t) = Raise e
         /\ unread_lines t = []))
  /\ (snd (drain t) = Return ->
      exists pre line post d,
        lines = pre ++ line :: post
        /\ unread_lines t = post
        /\ json_loads line = Gives (PDict d)
        /\ (d !! lit "cond" = Some (PStr COND_SUCCEEDED)
            \/ (d !! lit "cond" = Some (PStr COND_LIMITED) /\ il = true))).
Proof.
  intros t. subst t.
  destruct (for_lines_decompose json_loads il broken lines)
    as [[Hall Ht] | (pre & line & post & x & -> & Hp & Hn & Hs & Ht)];
    rewrite Ht, drain_yield_all, unread_yield_all; cbn [drain fst snd].
  - split; [|by destruct broken].
    destruct broken as [e|]; [|by left].
    right. right. by exists e.
  - split.
    + destruct Hs as [Hl|e Hl He| | | | |]; try (left; by destruct il).
      right. left. exists line, e.
      split; [|done]. apply elem_of_app. right. by left.
    + intros ->. exists pre, line, post.
      inversion Hs as [| | |d Hl Hc|d Hl Hc Hx| |]; subst.
      * exists d. eauto.
      * destruct il; [|discriminate]. exists d. eauto 10.
Qed.


(** ** Further properties of the generator object *)

Lemma interact_finished c cs :
  interact (Generator Finished c) cs =
  (repeat StopIteration (count_next cs), Generator Finished c).
Proof.
  induction cs as [|[] cs IH]; [done| |].
  - cbn [interact next gi_frame]. rewrite IH. done.
  - cbn [interact close gi_frame]. by rewrite IH.
Qed.

Lemma interact_next_answers t c n :
  let expected :=
    take n (map Yielded (fst (drain t)) ++ [last_answer (snd (drain t))])
    ++ repeat StopIteration (n - S (length (fst (drain t)))) in
  fst (interact (Generator (Suspended t) c) (repeat CallNext n)) = expected
  /\ fst (interact (Generator (Created t) c) (repeat CallNext n)) = expected.
Proof.
  revert n. induction t as [obj k IH | x rest]; intros n; cbn zeta.
  - cbn [drain]. destruct (drain k) as [objs x] eqn:Hk. cbn [fst snd] in *.
    destruct n as [|n]; [done|].
    cbn [repeat interact next gi_frame resume closed].
    destruct (IH n) as [IHs _]. cbn zeta in IHs.
    destruct (interact (Generator (Suspended k) c) (repeat CallNext n))
      as [answers g] eqn:Hi.
    cbn [fst] in *. rewrite IHs. done.
  - destruct n as [|n]; [done|].
    cbn [repeat interact next gi_frame resume closed drain fst snd].
    assert (Hrest : forall c', fst (let (answers, g'') :=
                interact (Generator Finished c') (repeat CallNext n) in
              (last_answer x :: answers, g'')) =
            last_answer x :: repeat StopIteration n).
    { intros c'. rewrite interact_finished. cbn [fst]. f_equal. f_equal.
      unfold count_next. induction n; simpl; auto. }
    cbn [length map app]. rewrite Nat.sub_succ, Nat.sub_0_r.
    destruct x; cbn [take]; rewrite take_nil; split; apply Hrest.
Qed.

(** X8. Asking a generator for one element after another gives the
    objects of the stream in order, then once the [StopIteration] or the
    exception that ends it, and [StopIteration] for ever after: an
    exception is raised a single time. *)
Theorem iteration_answers json_loads res il n :
  let t := for_lines json_loads il (iter_error res) (iter_lines res) in
  fst (interact (handle_saf json_loads res il) (repeat CallNext n)) =
  take n (map Yielded (fst (drain t)) ++ [last_answer (snd (drain t))])
  ++ repeat StopIteration (n - S (length (fst (drain t)))).
Proof. intros t. apply interact_next_answers. Qed.

(** X9. A generator that has been closed is inert: every later request is
    answered by [StopIteration], nothing more is read or yielded, and the
    response is not closed again. *)
Theorem closed_generator_inert (g : generator) (cs : list call) :
  interact (close g) cs = (repeat StopIteration (count_next cs), close g)
  /\ gi_frame (close g) = Finished
  /\ (closed (close g) <= S (closed g))%nat.
Proof.
  destruct g as [[t|t|] c]; cbn [close gi_frame closed];
    (split; [apply interact_finished|split; [done|lia]]).
Qed.

(** * Further properties of the composer *)

(** ** What a quoted text looks like *)

Lemma quoter_chars b : forallb quoted_char (quoter b) = true.
Proof. destruct b; reflexivity. Qed.

Lemma quoter_length b :
  length (quoter b) = if always_safe (Byte.to_N b) then 1%nat else 3%nat.
Proof. unfold quoter. by destruct (always_safe _). Qed.

Lemma quote_from_bytes_cons b bs :
  quote_from_bytes (b :: bs) = quoter b ++ quote_from_bytes bs.
Proof. reflexivity. Qed.

(** X10. A quoted segment is made of letters, digits, [_.-~], [%] and
    upper-case hexadecimal digits only. It holds no [/], so quoting never
    adds a path segment, and no space, comma, [?] or [#]. *)
Theorem quoted_alphabet (bs : pybytes) :
  forallb quoted_char (quote_from_bytes bs) = true
  /\ (forall c, c ∈ [47; 44; 32; 63; 35; 42] -> c ∉ quote_from_bytes bs)
  /\ (forall c, c ∈ quote_from_bytes bs -> c < 128).
Proof.
  assert (H : forallb quoted_char (quote_from_bytes bs) = true).
  { induction bs as [|b bs IH]; [done|].
    rewrite quote_from_bytes_cons, forallb_app, quoter_chars. done. }
  split; [done|]. rewrite forallb_forall in H. split.
  - intros c Hc Hin. apply list_elem_of_In, H in Hin.
    repeat (apply elem_of_cons in Hc as [->|Hc]; [discriminate|]).
    by apply elem_of_nil in Hc.
  - intros c Hin. apply list_elem_of_In, H in Hin.
    unfold quoted_char, always_safe in Hin.
    rewrite ?orb_true_iff, ?andb_true_iff, ?N.leb_le, ?N.eqb_eq in Hin. lia.
Qed.

(** X11. Quoting keeps every safe byte as it is and writes three
    characters for every other byte; bytes that are all safe are quoted as
    themselves. *)
Theorem quoted_length (bs : pybytes) :
  length (quote_from_bytes bs) =
  (length bs
   + 2 * length (List.filter (fun b => negb (always_safe (Byte.to_N b))) bs))%nat
  /\ (forallb (fun b => always_safe (Byte.to_N b)) bs = true ->
      quote_from_bytes bs = decode_ascii bs).
Proof.
  split.
  - induction bs as [|b bs IH]; [done|].
    rewrite quote_from_bytes_cons, length_app, quoter_length, IH.
    cbn [List.filter length]. destruct (always_safe _); cbn [negb length]; lia.
  - induction bs as [|b bs IH]; [done|].
    cbn [forallb]. intros [Hb Hbs]%andb_prop.
    rewrite quote_from_bytes_cons, IH by done.
    unfold quoter. by rewrite Hb.
Qed.

Lemma quoted_length_witness :
  quote_from_bytes (map byte_of_N (lit "www.example.com")) =
  lit "www.example.com".
Proof.
  exact (proj2 (quoted_length (map byte_of_N (lit "www.example.com")))
           ltac:(eval_goal)).
Defined.

Lemma utf8_encode_char_scalar c :
  utf8_encode_char c = None <-> scalar_value c = false.
Proof.
  unfold utf8_encode_char, scalar_value.
  destruct (N.ltb_spec c 0x80), (N.ltb_spec c 0x800),
    (N.ltb_spec c 0x10000), (N.leb_spec 0xD800 c), (N.ltb_spec c 0xE000),
    (N.ltb_spec c 0x110000), (N.ltb_spec c 0xD800), (N.leb_spec 0xE000 c);
    cbn [andb orb]; try lia; split; congruence.
Qed.

Lemma utf8_encode_scalar s :
  utf8_encode s = None <-> forallb scalar_value s = false.
Proof.
  induction s as [|c s IH]; [done|].
  cbn [utf8_encode forallb].
  destruct (utf8_encode_char c) as [b|] eqn:Ec.
  - assert (scalar_value c = true) as ->.
    { apply not_false_is_true. rewrite <- utf8_encode_char_scalar. congruence. }
    cbn [andb]. rewrite <- IH. by destruct (utf8_encode s).
  - apply utf8_encode_char_scalar in Ec as ->. done.
Qed.

(** X12. [_quote] of a [str] fails exactly when the text holds a lone
    surrogate, or a number that is no code point; a flex search for such a
    value raises [UnicodeError], which is no [DnsdbException], and sends no
    query. Every other value is quoted. *)
Theorem quote_str_failure (value : pystr) :
  (_quote (Str value) = Raises UnicodeError <->
   forallb scalar_value value = false)
  /\ (forallb scalar_value value = true ->
      exists segment, _quote (Str value) = Ok segment)
  /\ (forallb scalar_value value = false ->
      forall (P R : Type) (saf_query : pystr -> bool -> P -> result R)
             method key rrtype ignore_limited params,
        _gen_flex saf_query method key value rrtype ignore_limited params =
        Raises UnicodeError)
  /\ is_DnsdbException UnicodeError = false.
Proof.
  unfold _gen_flex, _quote, quote.
  pose proof (utf8_encode_scalar value) as H.
  destruct (utf8_encode value) as [bs|] eqn:E.
  - assert (Hv : forallb scalar_value value = true).
    { apply not_false_is_true. rewrite <- H. congruence. }
    rewrite Hv. repeat split; try done; eauto.
  - assert (Hv : forallb scalar_value value = false) by by apply H.
    rewrite Hv. repeat split; try done.
Qed.

Lemma quote_str_failure_witness :
  _quote (Str (lit "a+b*c?d")) = Ok (lit "a%2Bb%2Ac%3Fd") /\
  _gen_flex Examples.record_path (lit "regex") (lit "rrnames")
    (lit "a" ++ [0xD800]) None false ∅ = Raises UnicodeError.
Proof.
  destruct (quote_str_failure (lit "a+b*c?d")) as (_ & Hok & _).
  destruct (quote_str_failure (lit "a" ++ [0xD800])) as (_ & _ & Hbad & _).
  split.
  - destruct (Hok ltac:(eval_goal)) as [segment Hs]. rewrite Hs.
    vm_compute in Hs. injection Hs as <-. reflexivity.
  - exact (Hbad ltac:(eval_goal) _ _ Examples.record_path (lit "regex")
             (lit "rrnames") None false ∅).
Defined.

(** ** ASCII names through the IDNA codec *)

Lemma split_on_not_nil {A} (sep : A -> bool) l : split_on sep l <> [].
Proof.
  induction l as [|x l IH]; [done|]. simpl.
  destruct (sep x); [done|]. by destruct (split_on sep l).
Qed.

Lemma split_on_no_sep {A} (sep : A -> bool) l :
  Forall (fun x => sep x = false) l -> split_on sep l = [l].
Proof.
  induction 1 as [|x l Hx _ IH]; [done|]. simpl. by rewrite Hx, IH.
Qed.

Lemma split_on_app_sep {A} (sep : A -> bool) a x r :
  sep x = true ->
  split_on sep (a ++ x :: r) = split_on sep a ++ split_on sep r.
Proof.
  intros Hx. induction a as [|y a IH]; simpl.
  - by rewrite Hx.
  - destruct (sep y); [by rewrite IH|].
    rewrite IH. pose proof (split_on_not_nil sep a).
    by destruct (split_on sep a).
Qed.

Lemma split_on_map {A B} (f : A -> B) (sepA : A -> bool) (sepB : B -> bool) l :
  Forall (fun x => sepB (f x) = sepA x) l ->
  split_on sepB (map f l) = map (map f) (split_on sepA l).
Proof.
  induction 1 as [|x l Hx _ IH]; [done|]. simpl. rewrite Hx, IH.
  destruct (sepA x); [done|]. by destruct (split_on sepA l).
Qed.

Lemma split_on_join {A} (sep : A -> bool) x pieces :
  sep x = true -> pieces <> [] ->
  Forall (Forall (fun y => sep y = false)) pieces ->
  split_on sep (join_with x pieces) = pieces.
Proof.
  intros Hx Hne Hall. induction Hall as [|p ps Hp Hps IH]; [done|].
  destruct ps as [|q ps].
  - by apply split_on_no_sep.
  - change (join_with x (p :: q :: ps)) with (p ++ x :: join_with x (q :: ps)).
    rewrite split_on_app_sep by done.
    rewrite split_on_no_sep by done. by rewrite IH.
Qed.

Lemma join_with_snoc_nil {A} (x : A) pieces :
  pieces <> [] -> join_with x (pieces ++ [[]]) = join_with x pieces ++ [x].
Proof.
  induction pieces as [|p ps IH]; [done|]. intros _.
  destruct ps as [|q ps]; [done|].
  change (join_with x ((p :: q :: ps) ++ [[]]))
    with (p ++ x :: join_with x ((q :: ps) ++ [[]])).
  rewrite IH by done.
  change (join_with x (p :: q :: ps)) with (p ++ x :: join_with x (q :: ps)).
  by rewrite <- app_assoc.
Qed.

Lemma join_with_forall {A} (P : A -> Prop) (x : A) pieces :
  P x -> Forall (Forall P) pieces -> Forall P (join_with x pieces).
Proof.
  intros Hx. induction 1 as [|p ps Hp Hps IH]; [constructor|].
  destruct ps as [|q ps]; [done|].
  change (join_with x (p :: q :: ps)) with (p ++ x :: join_with x (q :: ps)).
  apply Forall_app. split; [done|]. by constructor.
Qed.

(** The codec on an ASCII name, in terms of the labels of the name. *)
Lemma encode_idna_ascii_labels nameprep input :
  input <> [] -> forallb (fun c => c <? 128) input = true ->
  encode_idna nameprep input =
  let labels := split_on (fun c => c =? 46) input in
  if forallb (fun label => label_size_ok (length label)) (removelast labels)
  then if (64 <=? length (List.last labels []))%nat
       then Raises UnicodeError
       else Ok (map byte_of_N input)
  else Raises UnicodeError.
Proof.
  intros Hne Hascii. unfold encode_idna.
  destruct input as [|c s]; [done|]. set (input := c :: s) in *.
  unfold encode_ascii. rewrite Hascii.
  rewrite (split_on_map byte_of_N (fun c => c =? 46)).
  2:{ apply Forall_forall. intros x Hx.
      rewrite forallb_forall in Hascii.
      apply list_elem_of_In, Hascii, N.ltb_lt in Hx.
      rewrite to_N_byte_of_N; [done | lia]. }
  cbv zeta. set (labels := split_on _ input).
  assert (Hlast : length (List.last (map (map byte_of_N) labels) []) =
                  length (List.last labels [])).
  { clear. induction labels as [|l [|l' ls] IH];
      [done | simpl; by rewrite length_map | exact IH]. }
  assert (Hinit : forallb (fun label : pybytes => label_size_ok (length label))
                    (removelast (map (map byte_of_N) labels)) =
                  forallb (fun label : pystr => label_size_ok (length label))
                    (removelast labels)).
  { clear. induction labels as [|l [|l' ls] IH]; [done..|].
    change (removelast (map (map byte_of_N) (l :: l' :: ls)))
      with (map byte_of_N l :: removelast (map (map byte_of_N) (l' :: ls))).
    change (removelast (l :: l' :: ls)) with (l :: removelast (l' :: ls)).
    cbn [forallb]. by rewrite IH, length_map. }
  by rewrite Hlast, Hinit.
Qed.

Lemma forallb_removelast {A} (f : A -> bool) l :
  forallb f l = true -> forallb f (removelast l) = true.
Proof.
  induction l as [|x [|y l] IH]; [done..|].
  change (removelast (x :: y :: l)) with (x :: removelast (y :: l)).
  cbn [forallb] in *. intros [Hx Hl]%andb_prop. by rewrite Hx, IH.
Qed.

Lemma forallb_last {A} (f : A -> bool) l d :
  l <> [] -> forallb f l = true -> f (List.last l d) = true.
Proof.
  induction l as [|x [|y l] IH]; [done| |].
  - intros _. simpl. by rewrite andb_true_r.
  - intros _. cbn [forallb]. intros [_ Hl]%andb_prop. by apply IH.
Qed.

Lemma in_last_or_removelast {A} (x : A) l d :
  In x l -> x = List.last l d \/ In x (removelast l).
Proof.
  induction l as [|y [|z l] IH]; [done| |].
  - intros [->|[]]. by left.
  - intros [->|Hin]; [right; by left|].
    destruct (IH Hin) as [->|Hr]; [by left | right; by right].
Qed.

Lemma join_with_not_nil {A} (x : A) p pieces :
  p <> [] -> join_with x (p :: pieces) <> [].
Proof. destruct p, pieces; done. Qed.

(** An ASCII name whose labels have one to 63 characters, with or without
    a full stop at its end, goes through the codec unchanged. *)
Lemma ascii_name_accepted nameprep labels (trailing : bool) :
  labels <> [] -> Forall ascii_label labels ->
  let name := join_with 46 (labels ++ if trailing then [[]] else []) in
  forallb (fun c => c <? 128) name = true
  /\ encode_idna nameprep name = Ok (map byte_of_N name).
Proof.
  intros Hne Hlabels name.
  set (pieces := labels ++ if trailing then [[]] else []) in *.
  assert (Hp : Forall (Forall (fun c => c < 128 /\ c <> 46)) pieces).
  { apply Forall_app. split.
    - eapply Forall_impl; [exact Hlabels|]. by intros l [_ Hl].
    - destruct trailing; repeat constructor. }
  assert (Hpne : pieces <> []) by (subst pieces; by destruct labels).
  assert (Hascii : forallb (fun c => c <? 128) name = true).
  { apply forallb_forall. intros c Hc%list_elem_of_In. apply N.ltb_lt.
    assert (Hall : Forall (fun c => c < 128) name).
    { apply join_with_forall; [lia|].
      eapply Forall_impl; [exact Hp|]. intros l Hl.
      eapply Forall_impl; [exact Hl|]. by intros ? [? _]. }
    rewrite Forall_forall in Hall. by apply Hall. }
  split; [done|].
  assert (Hname : name <> []).
  { subst name pieces. destruct labels as [|l ls]; [done|].
    apply Forall_cons in Hlabels as [[Hlen _] _].
    apply join_with_not_nil. destruct l; simpl in Hlen; [lia|done]. }
  rewrite encode_idna_ascii_labels by done. cbv zeta.
  fold name. unfold name at 1 2.
  assert (Hdots : Forall (Forall (fun c => (c =? 46) = false)) pieces).
  { eapply Forall_impl; [exact Hp|]. intros l Hl.
    eapply Forall_impl; [exact Hl|]. intros c [_ Hc]. by apply N.eqb_neq. }
  rewrite (split_on_join (fun c => c =? 46) 46 pieces) by done.
  assert (Hsize : forallb (fun label : pystr => label_size_ok (length label))
                    labels = true).
  { apply forallb_forall. intros l Hl%list_elem_of_In.
    rewrite Forall_forall in Hlabels. destruct (Hlabels l Hl) as [Hlen _].
    unfold label_size_ok. apply andb_true_intro.
    split; apply Nat.ltb_lt; lia. }
  subst pieces. destruct trailing.
  - rewrite removelast_last, last_last, Hsize. done.
  - rewrite app_nil_r. rewrite (forallb_removelast _ _ Hsize).
    pose proof (forallb_last _ labels [] Hne Hsize) as Hl.
    unfold label_size_ok in Hl. apply andb_prop in Hl as [_ Hl].
    apply Nat.ltb_lt in Hl.
    destruct (Nat.leb_spec 64 (length (List.last labels []))); [lia|done].
Qed.

Lemma hostname_label_ascii label : hostname_label label -> ascii_label label.
Proof.
  intros [Hlen Hall]. split; [done|].
  eapply Forall_impl; [exact Hall|]. intros c [Hs Hd]. split; [|done].
  unfold always_safe in Hs.
  rewrite ?orb_true_iff, ?andb_true_iff, ?N.leb_le, ?N.eqb_eq in Hs. lia.
Qed.

Lemma quote_safe_name (name : pystr) :
  Forall (fun c => always_safe c = true) name ->
  quote_from_bytes (map byte_of_N name) = name.
Proof.
  induction 1 as [|c s Hc _ IH]; [done|].
  cbn [map]. rewrite quote_from_bytes_cons, IH. unfold quoter.
  assert (c < 128).
  { unfold always_safe in Hc.
    rewrite ?orb_true_iff, ?andb_true_iff, ?N.leb_le, ?N.eqb_eq in Hc. lia. }
  rewrite to_N_byte_of_N by lia. by rewrite Hc.
Qed.

Lemma hostname_safe labels (trailing : bool) :
  Forall hostname_label labels ->
  Forall (fun c => always_safe c = true)
    (join_with 46 (labels ++ if trailing then [[]] else [])).
Proof.
  intros H. apply join_with_forall; [done|].
  apply Forall_app. split.
  - eapply Forall_impl; [exact H|]. intros l [_ Hl].
    eapply Forall_impl; [exact Hl|]. by intros c [? _].
  - destruct trailing; repeat constructor.
Qed.

(** X13. A host name, made of labels of one to 63 letters, digits and
    [_-~] separated by full stops, with or without a full stop at its end,
    is put in the path of an rrset or rdata-name query exactly as the
    caller wrote it, whatever the tables of [nameprep]. *)
Theorem hostname_unchanged (nameprep : pystr -> result pystr) (P R : Type)
    (saf_query : pystr -> bool -> P -> result R)
    prefix labels (trailing : bool) rrtype ignore_limited params :
  labels <> [] -> Forall hostname_label labels ->
  let name := join_with 46 (labels ++ if trailing then [[]] else []) in
  let tail := if given rrtype then lit "/" ++ default [] rrtype else [] in
  _gen_rrset nameprep saf_query prefix name rrtype None ignore_limited params
  = saf_query (prefix ++ lit "/rrset/name/" ++ name ++ tail)
      ignore_limited params
  /\ _gen_rdata_name nameprep saf_query prefix name rrtype ignore_limited
       params
     = saf_query (prefix ++ lit "/rdata/name/" ++ name ++ tail)
         ignore_limited params.
Proof.
  intros Hne Hlabels name tail.
  assert (Hascii : Forall ascii_label labels).
  { eapply Forall_impl; [exact Hlabels|]. apply hostname_label_ascii. }
  destruct (ascii_name_accepted nameprep labels trailing Hne Hascii)
    as [_ Henc].
  fold name in Henc.
  pose proof (quote_safe_name name (hostname_safe labels trailing Hlabels))
    as Hq.
  unfold _gen_rrset, _gen_rdata_name. rewrite Henc.
  cbn [mbind result_bind _quote quote given]. rewrite Hq. subst tail.
  destruct (given rrtype); by rewrite <- ?app_assoc, ?app_nil_r.
Qed.

Lemma hostname_unchanged_witness :
  _gen_rrset Examples.sample_nameprep Examples.record_path (lit "lookup")
    (lit "www.example.com.") (Some (lit "A")) None false ∅ =
  Ok (lit "lookup/rrset/name/www.example.com./A").
Proof.
  exact (proj1 (hostname_unchanged Examples.sample_nameprep _ _
    Examples.record_path (lit "lookup")
    [lit "www"; lit "example"; lit "com"] true (Some (lit "A")) false ∅
    ltac:(discriminate)
    ltac:(repeat constructor; try (vm_compute; lia); eval_goal))).
Defined.

Lemma quote_from_bytes_app a b :
  quote_from_bytes (a ++ b) = quote_from_bytes a ++ quote_from_bytes b.
Proof. unfold quote_from_bytes. by rewrite map_app, concat_app. Qed.

Lemma join_with_snoc {A} (x : A) pieces piece :
  pieces <> [] ->
  join_with x (pieces ++ [piece]) = join_with x pieces ++ x :: piece.
Proof.
  induction pieces as [|p ps IH]; [done|]. intros _.
  destruct ps as [|q ps]; [done|].
  change (join_with x ((p :: q :: ps) ++ [piece]))
    with (p ++ x :: join_with x ((q :: ps) ++ [piece])).
  rewrite IH by done.
  change (join_with x (p :: q :: ps)) with (p ++ x :: join_with x (q :: ps)).
  by rewrite <- app_assoc.
Qed.

Lemma star_label : ascii_label [42].
Proof. split; [simpl; lia|]. repeat constructor; lia. Qed.

(** X14. The asterisk of a wildcard name is percent-encoded: the owner
    name [*.] followed by a host name is sent as [%2A.] followed by that
    name, and a host name followed by [.*] as that name followed by
    [.%2A]. *)
Theorem wildcard_is_quoted (nameprep : pystr -> result pystr) (P R : Type)
    (saf_query : pystr -> bool -> P -> result R)
    prefix labels ignore_limited params :
  labels <> [] -> Forall hostname_label labels ->
  let host := join_with 46 labels in
  _gen_rrset nameprep saf_query prefix (lit "*." ++ host) None None
    ignore_limited params
  = saf_query (prefix ++ lit "/rrset/name/" ++ lit "%2A." ++ host)
      ignore_limited params
  /\ _gen_rrset nameprep saf_query prefix (host ++ lit ".*") None None
       ignore_limited params
     = saf_query (prefix ++ lit "/rrset/name/" ++ host ++ lit ".%2A")
         ignore_limited params.
Proof.
  intros Hne Hlabels host.
  assert (Hascii : Forall ascii_label labels).
  { eapply Forall_impl; [exact Hlabels|]. apply hostname_label_ascii. }
  pose proof (hostname_safe labels false Hlabels) as Hsafe.
  rewrite app_nil_r in Hsafe. fold host in Hsafe.
  pose proof (quote_safe_name host Hsafe) as Hq.
  split.
  - destruct (ascii_name_accepted nameprep ([42] :: labels) false
                ltac:(done) ltac:(constructor; [apply star_label|done]))
      as [_ Henc].
    rewrite app_nil_r in Henc.
    assert (Hname : join_with 46 ([42] :: labels) = lit "*." ++ host)
      by (by destruct labels).
    rewrite Hname in Henc. unfold _gen_rrset. rewrite Henc.
    cbn [mbind result_bind _quote quote given].
    change (map byte_of_N (lit "*." ++ host))
      with (map byte_of_N (lit "*.") ++ map byte_of_N host).
    by rewrite quote_from_bytes_app, Hq.
  - destruct (ascii_name_accepted nameprep (labels ++ [[42]]) false
                ltac:(by destruct labels)
                ltac:(apply Forall_app; split;
                      [done | constructor; [apply star_label|done]]))
      as [_ Henc].
    rewrite app_nil_r, join_with_snoc in Henc by done.
    fold host in Henc.
    change (host ++ 46 :: [42]) with (host ++ lit ".*") in Henc.
    unfold _gen_rrset. rewrite Henc.
    cbn [mbind result_bind _quote quote given].
    by rewrite map_app, quote_from_bytes_app, Hq.
Qed.

Lemma wildcard_is_quoted_witness :
  _gen_rrset Examples.sample_nameprep Examples.record_path (lit "lookup")
    (lit "*.example.com") None None false ∅ =
  Ok (lit "lookup/rrset/name/%2A.example.com").
Proof.
  exact (proj1 (wildcard_is_quoted Examples.sample_nameprep _ _
    Examples.record_path (lit "lookup") [lit "example"; lit "com"] false ∅
    ltac:(discriminate)
    ltac:(repeat constructor; try (vm_compute; lia); eval_goal))).
Defined.

(** X15. An ASCII name with an empty label before its last one, as a name
    that starts with a full stop or has two in a row, or with a label of
    64 characters or more, is refused by the codec: an rrset or rdata-name
    query on it raises [UnicodeError], which is no [DnsdbException], and
    sends nothing. *)
Theorem bad_label_rejected (nameprep : pystr -> result pystr) pieces :
  Forall (Forall (fun c => c < 128 /\ c <> 46)) pieces ->
  let name := join_with 46 pieces in
  name <> [] ->
  In [] (removelast pieces)
  \/ (exists label, In label pieces /\ (64 <= length label)%nat) ->
  encode_idna nameprep name = Raises UnicodeError
  /\ is_DnsdbException UnicodeError = false
  /\ forall (P R : Type) (saf_query : pystr -> bool -> P -> result R)
            prefix rrtype bailiwick ignore_limited params,
       _gen_rrset nameprep saf_query prefix name rrtype bailiwick
         ignore_limited params = Raises UnicodeError
       /\ _gen_rdata_name nameprep saf_query prefix name rrtype
            ignore_limited params = Raises UnicodeError.
Proof.
  intros Hp name Hname Hbad.
  assert (Hpne : pieces <> []) by (intros ->; by apply Hname).
  assert (Henc : encode_idna nameprep name = Raises UnicodeError).
  { assert (Hascii : forallb (fun c => c <? 128) name = true).
    { apply forallb_forall. intros c Hc%list_elem_of_In. apply N.ltb_lt.
      assert (Hall : Forall (fun c => c < 128) name).
      { apply join_with_forall; [lia|].
        eapply Forall_impl; [exact Hp|]. intros l Hl.
        eapply Forall_impl; [exact Hl|]. by intros ? [? _]. }
      rewrite Forall_forall in Hall. by apply Hall. }
    rewrite encode_idna_ascii_labels by done. cbv zeta.
    assert (Hdots : Forall (Forall (fun c => (c =? 46) = false)) pieces).
    { eapply Forall_impl; [exact Hp|]. intros l Hl.
      eapply Forall_impl; [exact Hl|]. intros c [_ Hc]. by apply N.eqb_neq. }
    unfold name. rewrite (split_on_join (fun c => c =? 46) 46 pieces) by done.
    set (ok := fun label : pystr => label_size_ok (length label)).
    assert (Hcase : forallb ok (removelast pieces) = false
                    \/ (64 <= length (List.last pieces []))%nat).
    { destruct Hbad as [Hin | (label & Hin & Hlen)].
      - left. apply not_true_is_false. intros Hall.
        rewrite forallb_forall in Hall. by specialize (Hall [] Hin).
      - destruct (in_last_or_removelast label pieces [] Hin) as [<-|Hr];
          [by right|].
        left. apply not_true_is_false. intros Hall.
        rewrite forallb_forall in Hall. specialize (Hall label Hr).
        unfold ok, label_size_ok in Hall.
        apply andb_prop in Hall as [_ Hall]. apply Nat.ltb_lt in Hall. lia. }
    destruct Hcase as [-> | Hlast]; [done|].
    destruct (forallb ok _); [|done].
    by rewrite (proj2 (Nat.leb_le _ _) Hlast). }
  split; [done|]. split; [done|].
  intros. unfold _gen_rrset, _gen_rdata_name. by rewrite Henc.
Qed.

Lemma bad_label_rejected_witness :
  encode_idna Examples.sample_nameprep (lit "a..b") = Raises UnicodeError /\
  encode_idna Examples.sample_nameprep (lit ".example.com") =
  Raises UnicodeError.
Proof.
  split.
  - exact (proj1 (bad_label_rejected Examples.sample_nameprep
      [lit "a"; []; lit "b"]
      ltac:(repeat constructor; try (vm_compute; lia); eval_goal)
      ltac:(discriminate) ltac:(left; right; by left))).
  - exact (proj1 (bad_label_rejected Examples.sample_nameprep
      [[]; lit "example"; lit "com"]
      ltac:(repeat constructor; try (vm_compute; lia); eval_goal)
      ltac:(discriminate) ltac:(left; by left))).
Defined.

(** X16. A raw rdata query puts [raw_rdata] and the [rrtype] in the path
    as they are written, checked and escaped by nothing: a query with an
    [rrtype] is sent to the very path of the query whose [raw_rdata] ends
    with a [/] and that [rrtype]. *)
Theorem raw_rdata_verbatim (P R : Type)
    (saf_query : pystr -> bool -> P -> result R)
    prefix raw_rdata rrtype ignore_limited params :
  _gen_rdata_raw saf_query prefix raw_rdata rrtype ignore_limited params =
  saf_query
    (prefix ++ lit "/rdata/raw/" ++ raw_rdata
     ++ if given rrtype then lit "/" ++ default [] rrtype else [])
    ignore_limited params
  /\ (forall t, t <> [] ->
      _gen_rdata_raw saf_query prefix raw_rdata (Some t) ignore_limited params
      = _gen_rdata_raw saf_query prefix (raw_rdata ++ lit "/" ++ t) None
          ignore_limited params).
Proof.
  unfold _gen_rdata_raw. split.
  - destruct (given rrtype); by rewrite <- ?app_assoc, ?app_nil_r.
  - intros [|c t] Ht; [done|]. cbn [given].
    change (default [] (Some (c :: t))) with (c :: t).
    by rewrite <- !app_assoc.
Qed.

Lemma raw_rdata_verbatim_witness :
  _gen_rdata_raw Examples.record_path (lit "abc") (lit "abcd")
    (Some (lit "A")) false ∅ =
  _gen_rdata_raw Examples.record_path (lit "abc") (lit "abcd/A") None false ∅.
Proof.
  exact (proj2 (raw_rdata_verbatim _ _ Examples.record_path (lit "abc")
                  (lit "abcd") None false ∅) (lit "A") ltac:(discriminate)).
Defined.

(** ** Further properties of the dispatcher *)

Lemma wrapped_not_request {A} (r : result A) e :
  match r with
  | Raises e => if is_RequestException e then Raises (QueryError e)
                else Raises e
  | Ok a => Ok a
  end = Raises e -> is_RequestException e = false.
Proof.
  destruct r as [a|e0]; [done|].
  destruct (is_RequestException e0) eqn:He; by intros [= <-].
Qed.

(** The decoder on a transfer that breaks before any line ends the
    stream. *)
Lemma for_lines_interrupted json_loads il (e : library_exception) lines :
  forallb (nonterminal json_loads) lines = true ->
  drain (for_lines json_loads il (Some e) lines) =
  (omap (payload json_loads) lines, Raise e).
Proof.
  intros H. rewrite <- (app_nil_r lines) at 1.
  rewrite for_lines_through by done.
  rewrite drain_yield_all. simpl. by rewrite app_nil_r.
Qed.

(** X17. A [RequestException] raised while the request is made never
    leaves a query as it is: no call of [_saf_query] or of [_json_query]
    raises one, and the one the session raises comes out of either as a
    [QueryError] without argument, chained to it; so does the one
    [res.json()] raises in [_json_query]. The generator [_saf_query]
    returns is outside that [try]: an exception the line iterator raises
    while the generator is consumed, be it a [RequestException], reaches
    the caller as it is, after the payloads of the lines that were read. *)
Theorem transport_errors_wrapped
    (json_loads : pystr -> library_result pyjson)
    (session_get : request -> result response)
    (response_json : response -> result pyjson)
    self path ignore_limited params :
  (forall e,
     _saf_query json_loads session_get self path ignore_limited params =
     Raises e -> is_RequestException e = false)
  /\ (forall e,
        fst (_json_query session_get response_json self path params) =
        Raises e -> is_RequestException e = false)
  /\ (forall e0,
        session_get
          {| req_url :=
               server self ++ lit "/" ++ API_PREFIX ++ lit "/" ++ path;
             req_headers := _headers self;
             req_params := params ∪ _base_params self;
             req_proxies := proxies self;
             req_verify := negb (insecure self);
             req_stream := true |} = Raises e0 ->
        is_RequestException e0 = true ->
        _saf_query json_loads session_get self path ignore_limited params =
        Raises (QueryError e0)
        /\ args (QueryError e0) = []
        /\ is_DnsdbException (QueryError e0) = true)
  /\ (forall e0,
        session_get (query_request false self path params) = Raises e0 ->
        is_RequestException e0 = true ->
        _json_query session_get response_json self path params =
        (Raises (QueryError e0), 0%nat))
  /\ (forall res e0,
        session_get (query_request false self path params) = Ok res ->
        _raise_error res = Ok tt ->
        response_json res = Raises e0 -> is_RequestException e0 = true ->
        _json_query session_get response_json self path params =
        (Raises (QueryError e0), 1%nat))
  /\ (forall res g (e : library_exception),
        session_get (query_request true self path params) = Ok res ->
        _saf_query json_loads session_get self path ignore_limited params =
        Ok g ->
        iter_error res = Some e ->
        forallb (nonterminal json_loads) (iter_lines res) = true ->
        let objs := omap (payload json_loads) (iter_lines res) in
        interact g (repeat CallNext (S (length objs))) =
        (map Yielded objs ++ [Raised e], Generator Finished 1)
        /\ is_DnsdbException e = false).
Proof.
  split; [|split; [|split; [|split; [|split]]]].
  - intros e. unfold _saf_query.
    match goal with
    | |- match ?r with _ => _ end = _ -> _ => destruct r as [res|e0] eqn:Hr
    end; [done|].
    destruct (is_RequestException e0) eqn:He; by intros [= <-].
  - intros e. unfold _json_query.
    destruct (session_get _) as [res|e0].
    + cbn [fst]. apply wrapped_not_request.
    + cbn [fst]. destruct (is_RequestException e0) eqn:He; by intros [= <-].
  - intros e0 Hget He. unfold _saf_query. rewrite Hget.
    cbn [mbind result_bind]. by rewrite He.
  - intros e0 Hget He. unfold _json_query.
    change (session_get (query_request false self path params) = Raises e0)
      in Hget.
    unfold query_request in Hget. rewrite Hget. by rewrite He.
  - intros res e0 Hget Hstatus Hjson He. unfold _json_query.
    unfold query_request in Hget. rewrite Hget, Hstatus.
    cbn [mbind result_bind]. by rewrite Hjson, He.
  - intros res g e Hget Hq Hbroken Hlines objs.
    unfold _saf_query in Hq. unfold query_request in Hget.
    rewrite Hget in Hq. cbn [mbind result_bind] in Hq.
    destruct (_raise_error res) as [[]|e'].
    2:{ cbn [mbind result_bind] in Hq.
        by destruct (is_RequestException e'). }
    cbn [mbind result_bind] in Hq. injection Hq as <-.
    split; [|done].
    pose proof (proj1 (interact_exhaust
      (for_lines json_loads ignore_limited (iter_error res)
         (iter_lines res)) 0)) as Hx.
    cbn zeta in Hx. rewrite Hbroken in Hx.
    rewrite (for_lines_interrupted json_loads ignore_limited e
               (iter_lines res) Hlines) in Hx.
    unfold handle_saf. rewrite Hbroken. exact Hx.
Qed.

Lemma transport_errors_wrapped_witness :
  _saf_query Examples.sample_loads (fun _ => Raises ConnectionError)
    Examples.unit_test_client (lit "test/path") false ∅ =
  Raises (QueryError ConnectionError)
  /\ (exists g,
        _saf_query Examples.sample_loads
          (Examples.answering Examples.test_interrupted)
          Examples.unit_test_client (lit "test/path") false ∅ = Ok g
        /\ interact g [CallNext; CallNext] =
           ([Yielded (Examples.count_obj 10392 138126549);
             Raised ChunkedEncodingError], Generator Finished 1))
  /\ is_RequestException ChunkedEncodingError = true.
Proof.
  split; [|split; [|reflexivity]].
  - destruct (transport_errors_wrapped Examples.sample_loads
      (fun _ => Raises ConnectionError) (fun _ => Raises AttributeError)
      Examples.unit_test_client (lit "test/path") false ∅)
      as (_ & _ & H & _).
    exact (proj1 (H ConnectionError eq_refl eq_refl)).
  - destruct (transport_errors_wrapped Examples.sample_loads
      (Examples.answering Examples.test_interrupted)
      (fun _ => Raises AttributeError)
      Examples.unit_test_client (lit "test/path") false ∅)
      as (_ & _ & _ & _ & _ & H).
    eexists. split; [reflexivity|].
    exact (proj1 (H Examples.test_interrupted _ ChunkedEncodingError
                    eq_refl eq_refl eq_refl ltac:(eval_goal))).
Defined.

(** X18. [_saf_query] makes one request and nothing it does depends on
    anything else of the session. The request goes to
    [<server>/dnsdb/v2/<path>], streams its body and carries the API key;
    among its parameters a value given by the caller wins over [swclient]
    and [version] of the client, which are sent otherwise, and nothing
    else is added: [ignore_limited] is not sent. *)
Theorem saf_query_request (json_loads : pystr -> library_result pyjson)
    (self : client) (path : pystr) (ignore_limited : bool)
    (params : gmap pystr pyjson) :
  let req := query_request true self path params in
  req_url req = server self ++ lit "/dnsdb/v2/" ++ path
  /\ req_stream req = true
  /\ req_verify req = negb (insecure self)
  /\ req_headers req !! lit "X-Api-Key" = Some (apikey self)
  /\ req_headers req !! lit "Accept" = Some (lit "application/x-ndjson")
  /\ (forall key value,
        params !! key = Some value -> req_params req !! key = Some value)
  /\ (forall key,
        params !! key = None ->
        req_params req !! key =
        if bool_decide (key = lit "swclient") then Some (PStr (swclient self))
        else if bool_decide (key = lit "version")
             then Some (PStr (version self))
             else None)
  /\ (forall session_get session_get' : request -> result response,
        session_get req = session_get' req ->
        _saf_query json_loads session_get self path ignore_limited params =
        _saf_query json_loads session_get' self path ignore_limited params).
Proof.
  intros req. repeat apply conj;
    [ | | | | | | |
      intros sg sg' Hreq; unfold _saf_query;
      change (sg req = sg' req) in Hreq; unfold req, query_request in Hreq;
      rewrite Hreq; reflexivity ];
    cbn [req query_request req_url req_stream req_verify req_headers
         req_params].
  - reflexivity.
  - done.
  - done.
  - unfold _headers. rewrite lookup_insert_ne by (vm_compute; discriminate).
    by rewrite lookup_singleton_eq.
  - unfold _headers. by rewrite lookup_insert_eq.
  - intros key value Hk. by apply lookup_union_Some_l.
  - intros key Hk. rewrite lookup_union_r by done. unfold _base_params.
    case_bool_decide as H1; [subst; by rewrite lookup_insert_eq|].
    rewrite lookup_insert_ne by done.
    case_bool_decide as H2; [subst; by rewrite lookup_singleton_eq|].
    by rewrite lookup_singleton_ne.
Qed.

Lemma saf_query_request_witness :
  req_params
    (query_request true Examples.unit_test_client (lit "test/path")
       {[ lit "swclient" := PStr (lit "mine"); lit "limit" := PInt 10 ]})
  !! lit "swclient" = Some (PStr (lit "mine")).
Proof.
  destruct (saf_query_request Examples.sample_loads
    Examples.unit_test_client (lit "test/path") false
    {[ lit "swclient" := PStr (lit "mine"); lit "limit" := PInt 10 ]})
    as (_ & _ & _ & _ & _ & H & _).
  apply H. eval_goal.
Defined.

Lemma status_unmapped (status : Z) :
  status ∉ [401; 403; 416; 429; 503]%Z -> _STATUS_CODE_MAP !! status = None.
Proof.
  intros Hm. unfold _STATUS_CODE_MAP. rewrite !not_elem_of_cons in Hm.
  repeat (rewrite lookup_insert_ne by (intros ?; intuition congruence)).
  apply lookup_singleton_ne. intros ?; intuition congruence.
Qed.

Lemma raise_error_cases res :
  let status := status_code res in
  ((400 <= status < 600)%Z ->
   exists e, _raise_error res = Raises e /\
     (e = HTTPError status \/
      (is_DnsdbException e = true /\ is_RequestException e = false)))
  /\ (~ (400 <= status < 600)%Z -> _raise_error res = Ok tt).
Proof.
  intros status. unfold _raise_error, raise_for_status. fold status.
  destruct (_STATUS_CODE_MAP !! status) as [mk|] eqn:Hm.
  - unfold _STATUS_CODE_MAP in Hm.
    assert (Hmk : (400 <= status < 600)%Z /\
                  is_DnsdbException (mk (text res)) = true /\
                  is_RequestException (mk (text res)) = false).
    { repeat (apply lookup_insert_Some in Hm as [[<- <-]|[_ Hm]];
              [by split; [lia|]|]).
      apply lookup_singleton_Some in Hm as [<- <-]. by split; [lia|]. }
    destruct Hmk as (Hr & Hd & Hq). split; [|tauto].
    intros _. eexists. split; [done|]. by right.
  - split.
    + intros Hr. replace ((400 <=? status)%Z && (status <? 600)%Z)
        with true by lia. eexists. split; [done|]. by left.
    + intros Hr. by replace ((400 <=? status)%Z && (status <? 600)%Z)
        with false by lia.
Qed.

(** X19. [_json_query], and [rate_limit] which is [_json_query] on the
    path [rate_limit], map the status of the response as [_saf_query]
    does, without decoding the body on an error; on any other status the
    result is the decoded body. The response is closed exactly once in all
    these cases, and never when the session gave none. *)
Theorem json_query_outcomes (session_get : request -> result response)
    (response_json : response -> result pyjson)
    (self : client) (path : pystr) (params : gmap pystr pyjson) :
  let outcome := _json_query session_get response_json self path params in
  let mapped := [401; 403; 416; 429; 503]%Z in
  (forall res,
     session_get (query_request false self path params) = Ok res ->
     let status := status_code res in
     snd outcome = 1%nat
     /\ (status = 401%Z \/ status = 403%Z ->
         fst outcome = Raises (AccessDenied (text res)))
     /\ (status = 416%Z -> fst outcome = Raises (OffsetError (text res)))
     /\ (status = 429%Z -> fst outcome = Raises (QuotaExceeded (text res)))
     /\ (status = 503%Z ->
         fst outcome = Raises (ConcurrencyExceeded (text res)))
     /\ (status ∉ mapped -> (400 <= status < 600)%Z ->
         fst outcome = Raises (QueryError (HTTPError status)))
     /\ (~ (400 <= status < 600)%Z ->
         forall document, response_json res = Ok document ->
           fst outcome = Ok document))
  /\ (forall e,
        session_get (query_request false self path params) = Raises e ->
        snd outcome = 0%nat)
  /\ rate_limit session_get response_json self =
     _json_query session_get response_json self (lit "rate_limit") ∅.
Proof.
  intros outcome mapped. subst outcome.
  split; [|split; [|done]]; unfold _json_query;
    change (session_get _) with
      (session_get (query_request false self path params)).
  - intros res Hres. rewrite Hres. cbn [fst snd].
    set (status := status_code res). split; [done|].
    repeat apply conj.
    + unfold _raise_error. fold status. by intros [-> | ->].
    + unfold _raise_error. fold status. by intros ->.
    + unfold _raise_error. fold status. by intros ->.
    + unfold _raise_error. fold status. by intros ->.
    + unfold _raise_error. fold status.
      intros Hm Hr. rewrite (status_unmapped status Hm).
      unfold raise_for_status. fold status.
      by replace ((400 <=? status)%Z && (status <? 600)%Z) with true by lia.
    + intros Hr document Hdoc.
      rewrite (proj2 (raise_error_cases res) Hr).
      cbn [mbind result_bind]. by rewrite Hdoc.
  - by intros e ->.
Qed.

Lemma json_query_outcomes_witness :
  _json_query (Examples.answering (Response 200 (lit "{}") [] None))
    (fun _ => Ok (PDict ∅)) Examples.unit_test_client (lit "rate_limit") ∅ =
  (Ok (PDict ∅), 1%nat).
Proof.
  destruct (json_query_outcomes
    (Examples.answering (Response 200 (lit "{}") [] None))
    (fun _ => Ok (PDict ∅)) Examples.unit_test_client (lit "rate_limit") ∅)
    as (H & _).
  destruct (H (Response 200 (lit "{}") [] None) eq_refl)
    as (Hc & _ & _ & _ & _ & _ & Hok).
  specialize (Hok ltac:(vm_compute; intros [? ?]; done) (PDict ∅) eq_refl).
  destruct (_json_query _ _ _ _ _) as [r c]. cbn [fst snd] in *.
  by rewrite Hc, Hok.
Defined.

(** X20. [ping] answers [True] exactly when the status is no error and
    the body decodes to an object whose [ping] is the string [ok]. It
    answers [False] only for another decoded object: on an error status it
    raises a [DnsdbException], and on a body that is no object an
    [AttributeError]. The response is closed once. *)
Theorem ping_outcomes (session_get : request -> result response)
    (response_json : response -> result pyjson) (self : client) res :
  session_get (query_request false self (lit "ping") ∅) = Ok res ->
  let status := status_code res in
  let answer := fst (ping session_get response_json self) in
  (answer = Ok true <->
   ~ (400 <= status < 600)%Z /\
   exists d, response_json res = Ok (PDict d) /\
             d !! lit "ping" = Some (PStr (lit "ok")))
  /\ (answer = Ok false ->
      ~ (400 <= status < 600)%Z /\
      exists d, response_json res = Ok (PDict d) /\
                d !! lit "ping" <> Some (PStr (lit "ok")))
  /\ ((400 <= status < 600)%Z ->
      exists e, answer = Raises e /\ is_DnsdbException e = true)
  /\ (~ (400 <= status < 600)%Z ->
      forall v, response_json res = Ok v -> (forall d, v <> PDict d) ->
        answer = Raises AttributeError)
  /\ snd (ping session_get response_json self) = 1%nat.
Proof.
  intros Hget status answer. subst answer. unfold ping, _json_query.
  change (session_get _) with
    (session_get (query_request false self (lit "ping") ∅)).
  rewrite Hget. cbn [fst snd].
  assert (Hping : forall d : gmap pystr pyjson,
    py_eq_str (default PNone (d !! lit "ping")) (lit "ok") = true <->
    d !! lit "ping" = Some (PStr (lit "ok"))).
  { intros d. destruct (d !! lit "ping") as [v|]; simpl.
    - rewrite py_eq_str_true. split; congruence.
    - split; discriminate. }
  destruct (raise_error_cases res) as [Hbad Hgood]. fold status in Hbad, Hgood.
  destruct (decide (400 <= status < 600)%Z) as [Hr|Hr].
  - destruct (Hbad Hr) as (e & -> & He). cbn [mbind result_bind].
    assert (Hout : exists e',
      (if is_RequestException e then Raises (QueryError e) else Raises e)
      = @Raises pyjson e' /\ is_DnsdbException e' = true).
    { destruct He as [-> | [Hd Hq]]; [by eexists|].
      rewrite Hq. by eexists. }
    destruct Hout as (e' & -> & Hd). cbn [mbind result_bind].
    split; [split|split; [|split; [|split]]].
    + done.
    + intros [Hn _]. by destruct (Hn Hr).
    + done.
    + intros _. by exists e'.
    + intros Hn. by destruct (Hn Hr).
    + done.
  - rewrite (Hgood Hr). cbn [mbind result_bind].
    destruct (response_json res) as [v|e0] eqn:Hj.
    + cbn [mbind result_bind].
      destruct v as [| | | | | |d]; cbn [py_get].
      7:{ split; [split|split; [|split; [|split]]].
          - intros [= Hp]. split; [done|]. exists d. split; [done|].
            by apply Hping.
          - intros [_ (d' & [= <-] & Hp)]. apply Hping in Hp. by rewrite Hp.
          - intros [= Hp]. split; [done|]. exists d. split; [done|].
            rewrite <- Hping. by rewrite Hp.
          - done.
          - intros _ v [= <-] Hv. by destruct (Hv d).
          - done. }
      all: split; [split|split; [|split; [|split]]];
        [ done | by intros [_ (d & [=] & _)] | done | done
        | by intros _ v [= <-] _ | done ].
    + assert (Hne : forall b : bool,
        ((if is_RequestException e0 then Raises (QueryError e0)
          else Raises e0) ≫= fun document : pyjson =>
           match py_get document (lit "ping") with
           | Some value => Ok (py_eq_str value (lit "ok"))
           | None => Raises AttributeError
           end) <> Ok b).
      { intros b. by destruct (is_RequestException e0). }
      split; [split|split; [|split; [|split]]].
      * intros H. by destruct (Hne true).
      * by intros [_ (d & [=] & _)].
      * intros H. by destruct (Hne false).
      * done.
      * by intros _ v [=] _.
      * done.
Qed.

Lemma ping_outcomes_witness :
  fst (ping (Examples.answering (Response 200 [] [] None))
         (fun _ => Ok (PDict {[ lit "ping" := PStr (lit "ok") ]}))
         Examples.unit_test_client) = Ok true.
Proof.
  destruct (ping_outcomes (Examples.answering (Response 200 [] [] None))
    (fun _ => Ok (PDict {[ lit "ping" := PStr (lit "ok") ]}))
    Examples.unit_test_client (Response 200 [] [] None) eq_refl) as (H & _).
  apply H. split; [vm_compute; intros [? ?]; done|].
  eexists. split; [reflexivity|]. eval_goal.
Defined.

(** * Properties of the mock client *)

Section MockFacts.
Context {A V E : Type}.
Implicit Types (self : Mock.client A V E) (fn : Mock.func A V E).

Lemma alter_at_end {B} (g : B -> B) (l : list B) (x : B) :
  alter g (length l) (l ++ [x]) = l ++ [g x].
Proof. induction l as [|y l IH]; [done|]. simpl. f_equal. exact IH. Qed.

(** A function that leaves [calls] alone, once decorated by [_records],
    adds one entry to [calls] and changes nothing else of what it does. *)
Lemma records_entry fn self args kwargs :
  (forall s a k, Mock.calls (snd (Mock.run fn s a k)) = Mock.calls s) ->
  let inner := Mock.run fn
                 (Mock.set_calls self
                    (Mock.calls self
                     ++ [Mock.Call (Mock.name fn) args kwargs None None]))
                 args kwargs in
  Mock.run (Mock._records fn) self args kwargs =
  (fst inner,
   Mock.set_calls (snd inner)
     (Mock.calls self
      ++ [Mock.entry (Mock.name fn) args kwargs (fst inner)])).
Proof.
  intros Hcalls inner. unfold Mock._records. cbn [Mock.run]. fold inner.
  pose proof (Hcalls (Mock.set_calls self
                (Mock.calls self
                 ++ [Mock.Call (Mock.name fn) args kwargs None None]))
                args kwargs) as Hc.
  fold inner in Hc. destruct inner as [o s']. cbn [fst snd] in *.
  cbn [Mock.set_calls Mock.calls] in Hc.
  destruct o; rewrite Hc, alter_at_end; done.
Qed.

Lemma searches_calls fn s a k :
  Mock.calls (snd (Mock.run (Mock._raises (Mock._searches fn)) s a k)) =
  Mock.calls s.
Proof.
  cbn [Mock._raises Mock._searches Mock.run Mock.name].
  destruct (Mock.exception s); [done|].
  destruct (Mock.search_results s) as [[|[] rest]|]; done.
Qed.

Lemma raises_plain_calls (method : pystr)
    (value : Mock.client A V E -> V) s a k :
  Mock.calls (snd (Mock.run (Mock._raises
    (Mock.Func method (fun self _ _ => (Mock.Returns (value self), self))))
    s a k)) = Mock.calls s.
Proof.
  cbn [Mock._raises Mock.run Mock.name]. by destruct (Mock.exception s).
Qed.

(** X21. Every call of a method of the mock, whether it returns or
    raises, adds exactly one entry at the end of [calls], with the name of
    the method, the arguments as they were given, and the result or the
    exception; the entries before it are not touched. Arguments are
    recorded, never checked. *)
Theorem mock_call_recorded (none : V) self (method : string) args kwargs :
  let after fn := Mock.run fn self args kwargs in
  let recorded fn :=
    Mock.calls (snd (after fn)) =
    Mock.calls self
    ++ [Mock.entry (Mock.name fn) args kwargs (fst (after fn))] in
  recorded (Mock.search method none) /\ recorded Mock.ping
  /\ recorded Mock.rate_limit
  /\ Mock.name (Mock.search (A:=A) (E:=E) method none) = lit method
  /\ Mock.name (Mock.ping (A:=A) (V:=V) (E:=E)) = lit "ping"
  /\ Mock.name (Mock.rate_limit (A:=A) (V:=V) (E:=E)) = lit "rate_limit".
Proof.
  intros after recorded. subst recorded after. cbv beta.
  repeat apply conj; try reflexivity.
  - unfold Mock.search. rewrite records_entry by apply searches_calls. done.
  - unfold Mock.ping. rewrite records_entry by apply raises_plain_calls. done.
  - unfold Mock.rate_limit.
    rewrite records_entry by apply raises_plain_calls. done.
Qed.

End MockFacts.

Section MockSearches.
Context {A V E : Type}.
Implicit Types (self : Mock.client A V E).

(** One call of a search method on a mock that was given no exception. *)
Lemma search_step (none : V) self (method : string) args kwargs :
  Mock.exception self = None ->
  let taken :=
    match Mock.search_results self with
    | None => (Mock.Raising Mock.TypeError, None)
    | Some [] => (Mock.Raising Mock.IndexError, Some [])
    | Some (first :: rest) => (Mock.served first, Some rest)
    end in
  Mock.run (Mock.search method none) self args kwargs =
  (fst taken,
   Mock.Client
     (Mock.calls self ++ [Mock.entry (lit method) args kwargs (fst taken)])
     None (Mock.ping_result self) (Mock.rate_limit_result self) (snd taken)).
Proof.
  intros Hnone taken. subst taken. unfold Mock.search.
  rewrite records_entry by apply searches_calls.
  cbn [Mock._raises Mock._searches Mock.run Mock.name Mock.set_calls
       Mock.exception Mock.search_results fst snd Mock.calls].
  rewrite Hnone. destruct self as [cs ex pr rr sr]. cbn in *. subst ex.
  destruct sr as [[|[] rest]|]; done.
Qed.

(** X23. A mock that was given no exception serves its search results in
    the order they were given, one for each call, whichever search method
    is called and with whatever arguments: a result is returned, a result
    that is an exception is raised. Once they are used up every call
    raises [IndexError]; a mock built without results raises [TypeError]
    from the first call on. *)
Theorem mock_results_in_order (none : V) self
    (script : list (string * list A * gmap pystr A)) :
  Mock.exception self = None ->
  let n := length script in
  let after := Mock.run_searches none self script in
  (forall items, Mock.search_results self = Some items ->
     fst after =
     map Mock.served (take n items)
     ++ repeat (Mock.Raising Mock.IndexError) (n - length items)
     /\ Mock.search_results (snd after) = Some (drop n items))
  /\ (Mock.search_results self = None ->
      fst after = repeat (Mock.Raising Mock.TypeError) n)
  /\ length (Mock.calls (snd after)) = (length (Mock.calls self) + n)%nat.
Proof.
  revert self. induction script as [|[[method args] kwargs] script IH];
    intros self Hnone.
  { cbn. split; [|split; [done|lia]].
    intros items ->. by rewrite drop_0. }
  cbn zeta. cbn [Mock.run_searches length].
  pose proof (search_step none self method args kwargs Hnone) as Hstep.
  cbn zeta in Hstep. rewrite Hstep. clear Hstep.
  destruct (Mock.search_results self) as [[|first rest]|] eqn:Hsr;
    cbn [fst snd];
    match goal with
    | |- context [Mock.run_searches none ?s script] =>
        destruct (IH s eq_refl) as (IHitems & IHnone & IHcalls);
        cbn zeta in IHitems, IHnone, IHcalls;
        destruct (Mock.run_searches none s script) as [os s''] eqn:Hrun
    end;
    cbn [fst snd Mock.calls Mock.search_results] in *.
  - destruct (IHitems [] eq_refl) as [-> ->]. split; [|split].
    + intros items [= <-]. rewrite take_nil, drop_nil.
      cbn [map app length]. by rewrite Nat.sub_0_r.
    + done.
    + rewrite IHcalls, length_app. simpl. lia.
  - destruct (IHitems rest eq_refl) as [-> ->]. split; [|split].
    + by intros items [= <-].
    + done.
    + rewrite IHcalls, length_app. simpl. lia.
  - rewrite (IHnone eq_refl). split; [|split].
    + done.
    + done.
    + rewrite IHcalls, length_app. simpl. lia.
Qed.

End MockSearches.

Lemma mock_results_in_order_witness :
  fst (Mock.run_searches (E:=exception) PNone
         (Mock.Client [] None PNone PNone
            (Some [Mock.Result (PInt 1); Mock.Failure QueryTruncated]))
         [("lookup_rrset"%string, [PStr (lit "a.example")], ∅);
          ("flex_rdata_glob"%string, [], ∅);
          ("lookup_rdata_ip"%string, [], ∅)]) =
  [Mock.Returns (PInt 1); Mock.Raising (Mock.Given QueryTruncated);
   Mock.Raising Mock.IndexError].
Proof.
  destruct (mock_results_in_order (E:=exception) PNone
    (Mock.Client [] None PNone PNone
       (Some [Mock.Result (PInt 1); Mock.Failure QueryTruncated]))
    [("lookup_rrset"%string, [PStr (lit "a.example")], ∅);
     ("flex_rdata_glob"%string, [], ∅);
     ("lookup_rdata_ip"%string, [], ∅)] eq_refl) as (H & _).
  exact (proj1 (H _ eq_refl)).
Defined.


(** * The public methods, end to end *)


